(** * gpm-nodejs: a shallow embedding of the registry client and of the
      installation orchestrator

    Sources embedded here:
    - [src/npm/npm-client.ts]  (class [NpmClient])
    - [src/npm/folder-stat.ts] (class [FolderStat])
    - [src/index.ts]           ([installDependencies], [installPackage])

    JavaScript values are modelled as follows.  A plain object used as a
    map ([KeyValueType], [versions]) is an association list in insertion
    order, which is the order [Object.keys] enumerates (keys are assumed
    not to be canonical array indices, and only own properties are
    modelled).  [undefined] and [null] are [None].  Numbers that count files
    and bytes are [Z].  A thrown exception is the [inl] of a result; the file
    system and the effect log are threaded as explicit state. *)

From stdpp Require Import base option list strings gmap.
From Stdlib Require Import ZArith Lia Ascii.

Local Open Scope Z_scope.
Local Open Scope string_scope.

(** ** JavaScript strings and objects *)

Module Js.

(** [s.split(sep)] for a one-character separator. *)
Fixpoint split (sep : ascii) (s : string) : list string :=
  match s with
  | EmptyString => [EmptyString]
  | String c rest =>
      if Ascii.eqb c sep then EmptyString :: split sep rest
      else match split sep rest with
           | [] => [String c EmptyString]
           | h :: t => String c h :: t
           end
  end.

(** [s.includes(c)] for a one-character needle. *)
Fixpoint includes (c : ascii) (s : string) : bool :=
  match s with
  | EmptyString => false
  | String d rest => Ascii.eqb d c || includes c rest
  end.

(** [s.startsWith(p)] and the general [s.includes(p)]. *)
Fixpoint startsWith (p s : string) : bool :=
  match p, s with
  | EmptyString, _ => true
  | String a p', String b s' => Ascii.eqb a b && startsWith p' s'
  | String _ _, EmptyString => false
  end.

Fixpoint contains (p s : string) : bool :=
  startsWith p s ||
  match s with
  | EmptyString => false
  | String _ rest => contains p rest
  end.

(** Truthiness of a possibly undefined string: [undefined] and [""] are
    falsy. *)
Definition truthy (v : option string) : bool :=
  match v with
  | None => false
  | Some s => negb (String.eqb s "")
  end.

(** Objects as association lists. *)
Definition Obj (V : Type) : Type := list (string * V).

Fixpoint get {V} (o : Obj V) (k : string) : option V :=
  match o with
  | [] => None
  | (k', v) :: rest => if String.eqb k' k then Some v else get rest k
  end.

(** [o[k] = v]: an existing key keeps its position. *)
Fixpoint set {V} (k : string) (v : V) (o : Obj V) : Obj V :=
  match o with
  | [] => [(k, v)]
  | (k', v') :: rest =>
      if String.eqb k' k then (k, v) :: rest else (k', v') :: set k v rest
  end.

Definition keys {V} (o : Obj V) : list string := map fst o.

(** [{...a, ...b}]; spreading [undefined] adds nothing.  Like [keys],
    the result is in insertion order: the source lists keys that are
    canonical array indices first, so the order is that of [Object.keys]
    only for objects without such keys. *)
Definition spread {V} (a b : Obj V) : Obj V :=
  fold_left (fun acc kv => set (fst kv) (snd kv) acc) b a.

Definition spread_opt {V} (a : Obj V) (b : option (Obj V)) : Obj V :=
  match b with
  | None => a
  | Some b => spread a b
  end.

(** A property read with a possibly [null] key: [o[null]] reads the key
    ["null"]. *)
Definition get_nullable {V} (o : Obj V) (k : option string) : option V :=
  get o (default "null" k).

End Js.

(** ** The range-string helpers of [NpmClient] *)

Definition at_sign : ascii := "@"%char.
Definition colon : ascii := ":"%char.

(** [arr[i]] on an array of strings.  Every index read by the helpers
    below is in range ([split] never returns an empty array), so the
    out-of-range default is never observed. *)
Definition index (arr : list string) (i : nat) : string :=
  default "" (arr !! i).

Definition extractPackageNameFromVersion (version : string) : string :=
  let versionRangeArray := Js.split at_sign version in
  let nameParts := Js.split colon (index versionRangeArray 0) in
  if (1 <? length nameParts)%nat then index nameParts 1 else index nameParts 0.

Definition extractVersionFromVersion (version : string) : string :=
  let versionRangeArray := Js.split at_sign version in
  if (1 <? length versionRangeArray)%nat
  then index versionRangeArray 1 else index versionRangeArray 0.

Definition getSanitizedVersion (version : string) : string :=
  let versionRangeArray := Js.split at_sign version in
  if (1 <? length versionRangeArray)%nat
  then index versionRangeArray 1 else index versionRangeArray 0.

Definition isVersionContainPackageName (version : string) : bool :=
  Js.includes at_sign version.

(** ** The semantic-version library

    [semver] is a third-party dependency.  The client and the orchestrator
    only call [semver.satisfies] and [semver.maxSatisfying]; the interface
    below exposes the predicate and the precedence order, and
    [maxSatisfying] is the library's loop over the candidate versions. *)

Class SemverLib := {
  (** [semver.satisfies(version, range)]; [false] on an invalid argument *)
  satisfies : string -> string -> bool;
  (** [new SemVer(a).compare(b) === -1] *)
  version_lt : string -> string -> bool
}.

(** The callback of the loop in [maxSatisfying]: [max] is replaced when
    it is still unset ([!max]) or precedes the candidate. *)
Definition keep_max `{SemverLib} (range : string)
    (max : option string) (v : string) : option string :=
  if satisfies v range then
    match max with
    | None => Some v
    | Some m =>
        if negb (Js.truthy max) || version_lt m v then Some v else max
    end
  else max.

Definition maxSatisfying `{SemverLib}
    (versions : list string) (range : string) : option string :=
  fold_left (keep_max range) versions None.

(** What the library guarantees: precedence is a strict order, and the
    empty string is not a version. *)
Class SemverLaws (S : SemverLib) : Prop := {
  version_lt_irrefl : forall a, version_lt a a = false;
  version_lt_trans : forall a b c,
    version_lt a b = true -> version_lt b c = true -> version_lt a c = true;
  satisfies_empty_version : forall range, satisfies "" range = false
}.

(** A concrete instance for the part of the grammar used in the examples:
    versions [X.Y.Z] with numeric identifiers, and ranges made of one
    comparator ([""], [*], [X.Y.Z], [=], [^], [~], [>=], [>], [<=], [<]). *)
Module SemverFragment.

Definition is_digit (c : ascii) : bool :=
  let n := N_of_ascii c in (48 <=? n)%N && (n <=? 57)%N.

Fixpoint digits_value (s : string) (acc : N) : option N :=
  match s with
  | EmptyString => Some acc
  | String c rest =>
      if is_digit c
      then digits_value rest (acc * 10 + (N_of_ascii c - 48))%N
      else None
  end.

(** A numeric identifier: [0|[1-9]\d*]. *)
Definition parse_num (s : string) : option N :=
  match s with
  | EmptyString => None
  | String c rest =>
      if Ascii.eqb c "0" && negb (String.eqb rest "") then None
      else digits_value s 0%N
  end.

Definition triple : Type := N * N * N.

Definition parse_version (s : string) : option triple :=
  match Js.split "." s with
  | [a; b; c] =>
      match parse_num a, parse_num b, parse_num c with
      | Some x, Some y, Some z => Some (x, y, z)
      | _, _, _ => None
      end
  | _ => None
  end.

Definition triple_lt (a b : triple) : bool :=
  let '(a1, a2, a3) := a in
  let '(b1, b2, b3) := b in
  (a1 <? b1)%N
  || ((a1 =? b1)%N && ((a2 <? b2)%N || ((a2 =? b2)%N && (a3 <? b3)%N))).

Definition triple_eqb (a b : triple) : bool :=
  let '(a1, a2, a3) := a in
  let '(b1, b2, b3) := b in
  (a1 =? b1)%N && (a2 =? b2)%N && (a3 =? b3)%N.

Definition triple_le (a b : triple) : bool := triple_lt a b || triple_eqb a b.

Inductive comparator :=
| Any
| Exact (v : triple)
| Caret (v : triple)
| Tilde (v : triple)
| Ge (v : triple)
| Gt (v : triple)
| Le (v : triple)
| Lt (v : triple).

Definition parse_range (s : string) : option comparator :=
  match s with
  | EmptyString => Some Any
  | String c rest =>
      if String.eqb s "*" then Some Any
      else if Ascii.eqb c "^" then Caret <$> parse_version rest
      else if Ascii.eqb c "~" then Tilde <$> parse_version rest
      else if Ascii.eqb c "=" then Exact <$> parse_version rest
      else if Ascii.eqb c ">" then
        match rest with
        | String d rest' =>
            if Ascii.eqb d "=" then Ge <$> parse_version rest'
            else Gt <$> parse_version rest
        | EmptyString => None
        end
      else if Ascii.eqb c "<" then
        match rest with
        | String d rest' =>
            if Ascii.eqb d "=" then Le <$> parse_version rest'
            else Lt <$> parse_version rest
        | EmptyString => None
        end
      else Exact <$> parse_version s
  end.

(** The exclusive upper bound of [^v]: the next version that changes the
    left-most non-zero identifier. *)
Definition caret_bound (v : triple) : triple :=
  let '(x, y, z) := v in
  if (0 <? x)%N then (x + 1, 0, 0)%N
  else if (0 <? y)%N then (0, y + 1, 0)%N
  else (0, 0, z + 1)%N.

Definition tilde_bound (v : triple) : triple :=
  let '(x, y, _) := v in (x, y + 1, 0)%N.

Definition test (c : comparator) (v : triple) : bool :=
  match c with
  | Any => true
  | Exact w => triple_eqb v w
  | Caret w => triple_le w v && triple_lt v (caret_bound w)
  | Tilde w => triple_le w v && triple_lt v (tilde_bound w)
  | Ge w => triple_le w v
  | Gt w => triple_lt w v
  | Le w => triple_le v w
  | Lt w => triple_lt v w
  end.

Definition satisfies (version range : string) : bool :=
  match parse_version version, parse_range range with
  | Some v, Some c => test c v
  | _, _ => false
  end.

Definition version_lt (a b : string) : bool :=
  match parse_version a, parse_version b with
  | Some x, Some y => triple_lt x y
  | _, _ => false
  end.

Definition lib : SemverLib := Build_SemverLib satisfies version_lt.

End SemverFragment.

(** ** Registry documents and installed descriptors *)

Abbreviation KeyValueType := (Js.Obj string).

(** [version.bin]: absent, a single relative path, or a map from command
    name to relative path. *)
Inductive BinField :=
| BinAbsent
| BinPath (p : string)
| BinMap (m : KeyValueType).

Record VersionDistResponse := {
  shasum : string;
  tarball : string;
  dist_fileCount : option Z;
  dist_unpackedSize : option Z
}.

Record VersionResponse := {
  vr_name : string;
  vr_version : string;
  vr_dependencies : option KeyValueType;
  dist : VersionDistResponse;
  vr_bin : BinField
}.

Record PackageResponse := {
  pr_name : string;
  versions : Js.Obj VersionResponse
}.

(** The [Package] interface of [index.ts]: a parsed [package.json]. *)
Record Package := {
  pkg_name : string;
  pkg_version : string;
  pkg_dependencies : option KeyValueType;
  pkg_devDependencies : option KeyValueType
}.

(** ** Directory trees and the census ([folder-stat.ts], [getFolderStat])

    A directory is the list of its entries.  A regular file carries its
    byte size and, when its content is a descriptor, the result of
    [JSON.parse].  A symbolic link carries the node it resolves to
    ([None] when it dangles); link cycles are outside this tree model. *)

#[local] Set Warnings "-register-all".

Inductive node :=
| RegFile (size : Z) (json : option Package)
| Dir (entries : list (string * node))
| Special
| Symlink (target : option node).

Abbreviation dirents := (list (string * node)).

Inductive FileKind := Regular | Directory | Other.

(** [fs.Stats]: what [isFile()], [isDirectory()] and [size] report. *)
Record Stats := { kind : FileKind; size : Z }.

Definition isFile (stat : Stats) : bool :=
  match kind stat with Regular => true | _ => false end.

Definition isDirectory (stat : Stats) : bool :=
  match kind stat with Directory => true | _ => false end.

(** [fs.statSync] follows symbolic links and throws on a dangling one;
    [fs.lstatSync] reports the link itself. *)
Fixpoint statSync (n : node) : option Stats :=
  match n with
  | RegFile sz _ => Some {| kind := Regular; size := sz |}
  | Dir _ => Some {| kind := Directory; size := 0 |}
  | Special => Some {| kind := Other; size := 0 |}
  | Symlink None => None
  | Symlink (Some target) => statSync target
  end.

Record FolderStat := { fileCount : Z; totalSize : Z }.

Definition newFolderStat : FolderStat := {| fileCount := 0; totalSize := 0 |}.

Definition addFolderStat (this folderSize : FolderStat) : FolderStat :=
  {| fileCount := fileCount this + fileCount folderSize;
     totalSize := totalSize this + totalSize folderSize |}.

Definition addFileStat (this : FolderStat) (stat : Stats) : FolderStat :=
  if isFile stat
  then {| fileCount := fileCount this + 1;
          totalSize := totalSize this + size stat |}
  else this.

Section ForEach.
Context (body : node -> FolderStat -> option FolderStat).

(** [fs.readdirSync(dir).forEach(file => ...)] over the accumulator
    [folderSize]; [None] when a callback throws. *)
Fixpoint forEach (files : dirents) (folderSize : FolderStat)
    : option FolderStat :=
  match files with
  | [] => Some folderSize
  | (_, file) :: rest =>
      match body file folderSize with
      | None => None
      | Some folderSize' => forEach rest folderSize'
      end
  end.
End ForEach.

(** The callback of [getFolderStat] on one entry: [statSync] (through
    links), [addFileStat], and for a directory [addFolderStat] of the
    recursive census. *)
Fixpoint visit (file : node) (folderSize : FolderStat) {struct file}
    : option FolderStat :=
  match file with
  | RegFile sz _ =>
      Some (addFileStat folderSize {| kind := Regular; size := sz |})
  | Special =>
      Some (addFileStat folderSize {| kind := Other; size := 0 |})
  | Symlink None => None
  | Symlink (Some target) => visit target folderSize
  | Dir entries =>
      match forEach visit entries newFolderStat with
      | None => None
      | Some sub =>
          Some (addFolderStat
                  (addFileStat folderSize {| kind := Directory; size := 0 |})
                  sub)
      end
  end.

Definition getFolderStat (dir : dirents) : option FolderStat :=
  forEach visit dir newFolderStat.

(** ** The outside world, the file system and thrown errors *)

(** A response body is observed through [response.json()], through the
    digest and size of its bytes, and through what the gzip/tar pipeline
    makes of them: the tree below the archive's single top-level folder,
    or [None] when a stream of the pipeline fails, in which case the
    statements after [unpackModule] are not reached. *)
Record Body := {
  body_json : option PackageResponse;
  body_sha1 : string;
  body_size : Z;
  body_untar : option dirents
}.

Record Response := {
  status : Z;
  statusText : string;
  body : Body
}.

(** [response.ok]: the status is in the range 200-299. *)
Definition ok (r : Response) : bool :=
  (200 <=? status r)%Z && (status r <=? 299)%Z.

Record World := {
  (** [fetch(url)]; [None] when the promise rejects *)
  fetch : string -> option Response;
  (** [process.cwd()] *)
  cwd : string
}.

Inductive event :=
| EvFetch (url : string)
| EvDownloadModule (key : string)
| EvRedownloadModule (key : string)
| EvUnpack (key : string).

(** The part of the disk the program touches: for each directory [d] the
    content of [d/.gpm/cache] (one parsed document per package name), and
    under the working directory [node_modules], its module directories
    (addressed by dependency key) and [node_modules/.bin] (link name to the
    module and relative path it points at). *)
Record State := {
  caches : gmap string (gmap string PackageResponse);
  nm_exists : bool;
  mods : gmap string dirents;
  bin : option (gmap string (string * string));
  log : list event
}.

Definition dquote : string := String "034"%char EmptyString.

Inductive error :=
| Error (msg : string)
| TypeError (prop : string)
| SyntaxError
| SystemError (code : string)
| FetchError (url : string)
| StreamError.

(** The [message] of a thrown error; a [TypeError] here is always a
    property read on [undefined]. *)
Definition message (e : error) : string :=
  match e with
  | Error msg => msg
  | TypeError prop =>
      "Cannot read properties of undefined (reading '" +:+ prop +:+ "')"
  | SyntaxError => "Unexpected token in JSON"
  | SystemError code => code
  | FetchError _ => "fetch failed"
  | StreamError => "stream error"
  end.

(** The message of what a computation threw, if it threw. *)
Definition thrown_message {A} (r : error + A) : string :=
  match r with
  | inl e => message e
  | inr _ => ""
  end.

(** State and exceptions: a computation returns a value or throws, and in
    both cases leaves a state behind. *)
Definition M (A : Type) : Type := State -> (error + A) * State.

Definition ret {A} (a : A) : M A := fun st => (inr a, st).
Definition throw {A} (e : error) : M A := fun st => (inl e, st).
Definition bind {A B} (c : M A) (k : A -> M B) : M B :=
  fun st =>
    match c st with
    | (inl e, st') => (inl e, st')
    | (inr a, st') => k a st'
    end.
Definition gets {A} (f : State -> A) : M A := fun st => (inr (f st), st).
Definition modify (f : State -> State) : M unit := fun st => (inr tt, f st).

Notation "'do' x <- c ; k" := (bind c (fun x => k))
  (at level 10, x name, c at level 100, k at level 200).
Notation "c ;; k" := (bind c (fun _ => k))
  (at level 100, k at level 200, right associativity).

Definition when (b : bool) (c : M unit) : M unit := if b then c else ret tt.

Definition emit (e : event) : M unit :=
  modify (fun st =>
    {| caches := caches st; nm_exists := nm_exists st; mods := mods st;
       bin := bin st; log := log st ++ [e] |}).

Definition set_caches (c : gmap string (gmap string PackageResponse)) : M unit :=
  modify (fun st =>
    {| caches := c; nm_exists := nm_exists st; mods := mods st;
       bin := bin st; log := log st |}).

Definition set_mods (m : gmap string dirents) : M unit :=
  modify (fun st =>
    {| caches := caches st; nm_exists := true; mods := m;
       bin := bin st; log := log st |}).

Definition set_bin (b : gmap string (string * string)) : M unit :=
  modify (fun st =>
    {| caches := caches st; nm_exists := true; mods := mods st;
       bin := Some b; log := log st |}).

Definition ensure_node_modules : M unit :=
  modify (fun st =>
    {| caches := caches st; nm_exists := true; mods := mods st;
       bin := bin st; log := log st |}).

(** [fetch(url)] as an effect. *)
Definition do_fetch (w : World) (url : string) : M Response :=
  emit (EvFetch url) ;;
  match fetch w url with
  | None => throw (FetchError url)
  | Some r => ret r
  end.

(** *** Entries of one directory *)

Definition remove_entry (name : string) (d : dirents) : dirents :=
  filter (fun e => fst e ≠ name) d.

(** [fs.existsSync] follows links: a dangling link does not exist. *)
Definition existsSync_entry (d : dirents) (name : string) : bool :=
  match Js.get d name with
  | Some n => bool_decide (is_Some (statSync n))
  | None => false
  end.

(** [fs.rmSync(path)] without options: the path must exist and must not
    be a directory; a link is removed itself. *)
Definition rmSync_entry (name : string) (d : dirents) : error + dirents :=
  match Js.get d name with
  | None => inl (SystemError "ENOENT")
  | Some (Dir _) => inl (SystemError "ERR_FS_EISDIR")
  | Some _ => inr (remove_entry name d)
  end.

(** Unpacking one archive member over what the directory holds: a file
    replaces the entry of that name, a directory is merged into an
    existing directory. *)
Definition upsert (name : string) (f : option node -> node) (d : dirents)
    : dirents :=
  Js.set name (f (Js.get d name)) d.

Fixpoint extract_entry (name : string) (n : node) (old : dirents) {struct n}
    : dirents :=
  match n with
  | Dir members =>
      let merged :=
        fix go (ms : dirents) (sub : dirents) : dirents :=
          match ms with
          | [] => sub
          | (nm, c) :: rest => go rest (extract_entry nm c sub)
          end in
      upsert name
        (fun cur =>
           match cur with
           | Some (Dir es) => Dir (merged members es)
           | _ => Dir (merged members [])
           end)
        old
  | _ => upsert name (fun _ => n) old
  end.

Definition extract (members : dirents) (old : dirents) : dirents :=
  fold_left (fun acc e => extract_entry (fst e) (snd e) acc) members old.

(** [path.basename]: the last non-empty segment. *)
Definition basename (p : string) : string :=
  default "" (last (filter (fun seg => seg ≠ "") (Js.split "/" p))).

(** ** [NpmClient] *)

Record NpmClient := {
  registryUrl : string;
  workingDir : string;
  cacheable : bool
}.

(** The constructor.  [fs.existsSync(this.cacheDir)] tests the relative
    path [.gpm/cache], which resolves against [process.cwd()];
    [rmSync] and [mkdirSync] act on [path.join(workingDir, cacheDir)]. *)
Definition constructor (w : World) (this : NpmClient) : M unit :=
  when (cacheable this)
    (do c <- gets caches;
     (when (bool_decide (is_Some (c !! cwd w)))
        (set_caches (delete (workingDir this) c))) ;;
     do c <- gets caches;
     when (bool_decide (c !! workingDir this = None))
       (set_caches (<[workingDir this := ∅]> c))).

Definition readPackageInfoCache (this : NpmClient) (packageName : string)
    : M (option PackageResponse) :=
  do c <- gets caches;
  ret (c !! workingDir this ≫= fun dir => dir !! packageName).

Definition writePackageInfoCache (this : NpmClient) (packageName : string)
    (packageResponse : PackageResponse) : M unit :=
  do c <- gets caches;
  set_caches
    (<[workingDir this :=
         <[packageName := packageResponse]> (default ∅ (c !! workingDir this))]> c).

Definition downloadPackageInfo (w : World) (this : NpmClient)
    (packageName : string) : M PackageResponse :=
  let packageUrl := registryUrl this +:+ "/" +:+ packageName in
  do response <- do_fetch w packageUrl;
  if negb (ok response)
  then throw (Error ("Failed to download package: " +:+ statusText response))
  else match body_json (body response) with
       | None => throw SyntaxError
       | Some doc => ret doc
       end.

Definition getPackage (w : World) (this : NpmClient) (packageName : string)
    : M PackageResponse :=
  do cached <- (if cacheable this
                then readPackageInfoCache this packageName
                else ret None);
  match cached with
  | Some packageResponse => ret packageResponse
  | None =>
      do packageResponse <- downloadPackageInfo w this packageName;
      when (cacheable this)
        (writePackageInfoCache this packageName packageResponse) ;;
      ret packageResponse
  end.

(** Replaces the entries of the module directory [key]. *)
Definition put_dir (key : string) (d : dirents) : M unit :=
  do m <- gets mods;
  set_mods (<[key := d]> m).

Definition get_dir (key : string) : M dirents :=
  do m <- gets mods;
  match m !! key with
  | Some d => ret d
  | None => throw (SystemError "ENOENT")
  end.

Definition lift_fs {A} (r : error + A) : M A :=
  match r with
  | inl e => throw e
  | inr a => ret a
  end.

(** [downloadModule(version, destinationDir)] with
    [destinationDir = node_modules/key].

    [unpackModule] settles its promise on the events of the stream that
    reads the archive file: it resolves on [close], when the file has been
    read, while the unzip and tar streams may still be writing.  The
    entries unpacked here are those the module directory holds once that
    pipeline has finished; nothing in the source orders this moment before
    the [rmSync] of the temporary file or before the return.  A failure of
    the unzip or tar stream ([body_untar = None]) is not reported to the
    promise: it is an unhandled ['error'] event, which ends the process.
    It is rendered as the throw of [StreamError] at the call, the process
    ending before the read stream closes; when the event comes later,
    the source deletes the temporary file and returns first, and no
    statement says which of the two happens.  The temporary path
    [path.join(destinationDir, fileName)] is the entry [fileName] of the
    directory when [fileName] is one path segment. *)
Definition downloadModule (w : World) (version : option VersionResponse)
    (key : string) : M unit :=
  emit (EvDownloadModule key) ;;
  match version with
  | None => throw (TypeError "dist")
  | Some version =>
      let fileUrl := tarball (dist version) in
      let fileName := basename fileUrl in
      do m <- gets mods;
      when (bool_decide (m !! key = None)) (put_dir key []) ;;
      do d <- get_dir key;
      (if existsSync_entry d fileName
       then (do d' <- lift_fs (rmSync_entry fileName d); put_dir key d')
       else ret tt) ;;
      do res <- do_fetch w fileUrl;
      do d <- get_dir key;
      (* createWriteStream with the flags 'wx' fails on an existing path *)
      match Js.get d fileName with
      | Some _ => throw (SystemError "EEXIST")
      | None =>
          put_dir key (d ++ [(fileName, RegFile (body_size (body res)) None)]) ;;
          if negb (String.eqb (body_sha1 (body res)) (shasum (dist version)))
          then
            (do d <- get_dir key;
             do d' <- lift_fs (rmSync_entry fileName d);
             put_dir key d' ;;
             throw (Error ("Downloaded file " +:+ dquote +:+ fileName
                           +:+ dquote +:+ " has incorrect hash")))
          else
            (emit (EvUnpack key) ;;
             match body_untar (body res) with
             | None => throw StreamError
             | Some members =>
                 do d <- get_dir key;
                 put_dir key (extract members d) ;;
                 do d <- get_dir key;
                 do d' <- lift_fs (rmSync_entry fileName d);
                 put_dir key d'
             end)
      end
  end.

(** [redownloadModule]: the first statement reads [version.name]. *)
Definition redownloadModule (w : World) (version : option VersionResponse)
    (key : string) : M unit :=
  emit (EvRedownloadModule key) ;;
  match version with
  | None => throw (TypeError "name")
  | Some _ =>
      do m <- gets mods;
      set_mods (delete key m) ;;
      downloadModule w version key
  end.

(** [===] between a computed number and a possibly absent field. *)
Definition strict_eq (a : Z) (b : option Z) : bool := bool_decide (Some a = b).

Definition isModuleValid (version : option VersionResponse) (key : string)
    : M bool :=
  do d <- get_dir key;
  match getFolderStat d with
  | None => throw (SystemError "ENOENT")
  | Some folderStat =>
      match version with
      | None => throw (TypeError "dist")
      | Some version =>
          ret (strict_eq (fileCount folderStat) (dist_fileCount (dist version))
               && strict_eq (totalSize folderStat)
                    (dist_unpackedSize (dist version)))
      end
  end.

(** [fs.symlinkSync(target, path)] into [node_modules/.bin]. *)
Definition symlinkSync (target : string * string) (name : string) : M unit :=
  do b <- gets bin;
  match default ∅ b !! name with
  | Some _ => throw (SystemError "EEXIST")
  | None => set_bin (<[name := target]> (default ∅ b))
  end.

Fixpoint symlinkAll (key : string) (m : KeyValueType) : M unit :=
  match m with
  | [] => ret tt
  | (binFile, p) :: rest => symlinkSync (key, p) binFile ;; symlinkAll key rest
  end.

Definition bin_truthy (b : BinField) : bool :=
  match b with
  | BinAbsent => false
  | BinPath p => negb (String.eqb p "")
  | BinMap _ => true
  end.

Definition symlinkBinFiles (version : option VersionResponse) (key : string)
    : M unit :=
  match version with
  | None => throw (TypeError "bin")
  | Some version =>
      when (bin_truthy (vr_bin version))
        (do b <- gets bin;
         when (bool_decide (b = None)) (set_bin ∅) ;;
         match vr_bin version with
         | BinPath p => symlinkSync (key, p) (vr_name version)
         | BinMap m => symlinkAll key m
         | BinAbsent => ret tt
         end)
  end.

Definition getClosestVersion `{SemverLib}
    (packageResponse : PackageResponse) (requiredModuleVersion : string)
    : option VersionResponse :=
  let versionRange := getSanitizedVersion requiredModuleVersion in
  let closestVersion :=
    maxSatisfying (Js.keys (versions packageResponse)) versionRange in
  Js.get_nullable (versions packageResponse) closestVersion.

(** The source computes the sanitized range and then tests the
    requirement as it was given. *)
Definition isVersionSatisfies `{SemverLib}
    (packageVersion requiredModuleVersion : string) : bool :=
  satisfies packageVersion requiredModuleVersion.

(** ** The orchestrator ([index.ts]) *)

Definition NPM_REGISTRY : string := "https://registry.npmjs.org".
Definition PACKAGE_FILE_NAME : string := "package.json".

(** [const npmClient = new NpmClient(NPM_REGISTRY)]: the working directory
    defaults to [process.cwd()] and caching is on. *)
Definition npmClient (w : World) : NpmClient :=
  {| registryUrl := NPM_REGISTRY; workingDir := cwd w; cacheable := true |}.

(** [fs.readFileSync] through links, then [JSON.parse]. *)
Fixpoint readJson (n : node) : error + Package :=
  match n with
  | RegFile _ (Some p) => inr p
  | RegFile _ None => inl SyntaxError
  | Dir _ => inl (SystemError "EISDIR")
  | Special => inl SyntaxError
  | Symlink None => inl (SystemError "ENOENT")
  | Symlink (Some target) => readJson target
  end.

Definition existsSync_packageJson (key : string) : M bool :=
  do m <- gets mods;
  ret (match m !! key with
       | Some d => existsSync_entry d PACKAGE_FILE_NAME
       | None => false
       end).

Definition readPackageJson (key : string) : M Package :=
  do d <- get_dir key;
  match Js.get d PACKAGE_FILE_NAME with
  | Some n => lift_fs (readJson n)
  | None => throw (SystemError "ENOENT")
  end.

(** [getPackageDependencies] on the parsed project descriptor. *)
Definition getPackageDependencies (packageJsonObject : Package) (prod : bool)
    : KeyValueType :=
  let dependencies := default [] (pkg_dependencies packageJsonObject) in
  if negb prod
  then Js.spread dependencies
         (default [] (pkg_devDependencies packageJsonObject))
  else dependencies.

Section Orchestrator.
Context `{SemverLib} (w : World).

(** One iteration of the [for (let key of dependencies)] loop.  The
    ledger [processedDependencies] is mutated in place by the source; it
    is threaded here together with [requiredModuleDependencies].  The skip
    test reads the ledger's own properties; in the source the read goes
    through [Object.prototype], so that a key named like one of its
    properties ([constructor], [toString], ...) is skipped whatever the
    ledger holds: the two agree on every other key. *)
Definition installDependency (requiredDependencies : KeyValueType)
    (key : string) (acc : KeyValueType * KeyValueType)
    : M (KeyValueType * KeyValueType) :=
  let '(processedDependencies, requiredModuleDependencies) := acc in
  if Js.truthy (Js.get processedDependencies key) then ret acc
  else
    let required := default "" (Js.get requiredDependencies key) in
    let requiredModuleVersion := extractVersionFromVersion required in
    let packageName :=
      if isVersionContainPackageName required
      then extractPackageNameFromVersion required else key in
    do packageResponse <- getPackage w (npmClient w) packageName;
    do installed <- existsSync_packageJson key;
    do requiredModuleDependencies' <-
      (if installed then
         do modulePackageJsonObject <- readPackageJson key;
         let moduleCurrentVersion :=
           Js.get (versions packageResponse)
                  (pkg_version modulePackageJsonObject) in
         (if satisfies (pkg_version modulePackageJsonObject)
                       requiredModuleVersion
          then
            do valid <- isModuleValid moduleCurrentVersion key;
            when (negb valid)
              (redownloadModule w moduleCurrentVersion key) ;;
            symlinkBinFiles moduleCurrentVersion key
          else
            let moduleNewVersion :=
              maxSatisfying (Js.keys (versions packageResponse))
                            requiredModuleVersion in
            let newVersion :=
              Js.get_nullable (versions packageResponse) moduleNewVersion in
            redownloadModule w newVersion key ;;
            symlinkBinFiles newVersion key) ;;
         ret (Js.spread_opt requiredModuleDependencies
                (pkg_dependencies modulePackageJsonObject))
       else
         let versionToDownload :=
           maxSatisfying (Js.keys (versions packageResponse))
                         requiredModuleVersion in
         let moduleVersionToDownload :=
           Js.get_nullable (versions packageResponse) versionToDownload in
         downloadModule w moduleVersionToDownload key ;;
         symlinkBinFiles moduleVersionToDownload key ;;
         ret (Js.spread requiredModuleDependencies
                (default [] (moduleVersionToDownload ≫= vr_dependencies))));
    ret (Js.set key requiredModuleVersion processedDependencies,
         requiredModuleDependencies').

Fixpoint forKeys (requiredDependencies : KeyValueType)
    (dependencies : list string) (acc : KeyValueType * KeyValueType)
    : M (KeyValueType * KeyValueType) :=
  match dependencies with
  | [] => ret acc
  | key :: rest =>
      do acc' <- installDependency requiredDependencies key acc;
      forKeys requiredDependencies rest acc'
  end.

(** Returns the updated ledger and [requiredModuleDependencies]. *)
Definition installDependencies
    (processedDependencies requiredDependencies : KeyValueType)
    : M (KeyValueType * KeyValueType) :=
  ensure_node_modules ;;
  forKeys requiredDependencies (Js.keys requiredDependencies)
          (processedDependencies, []).

(** The [do ... while] loop of [installPackage]; [None] when [fuel]
    iterations were not enough. *)
Fixpoint doWhile (fuel : nat) (processedDependencies : KeyValueType)
    (requiredModuleDependencies : KeyValueType) (st : State)
    : option ((error + unit) * State) :=
  match fuel with
  | O => None
  | S fuel' =>
      match installDependencies processedDependencies
              requiredModuleDependencies st with
      | (inl e, st') => Some (inl e, st')
      | (inr (processed', next), st') =>
          if (0 <? length (Js.keys next))%nat
          then doWhile fuel' processed' next st'
          else Some (inr tt, st')
      end
  end.

Definition installPackage (fuel : nat) (manifest : Package) (prod : bool)
    (st : State) : option ((error + unit) * State) :=
  let processedDependencies : KeyValueType := [] in
  let requiredDependencies := getPackageDependencies manifest prod in
  match installDependencies processedDependencies requiredDependencies st with
  | (inl e, st') => Some (inl e, st')
  | (inr (processed', requiredModuleDependencies), st') =>
      doWhile fuel processed' requiredModuleDependencies st'
  end.

(** One process invocation of [install]: the module-level client is
    constructed, then [installPackage] runs. *)
Definition run (fuel : nat) (manifest : Package) (prod : bool) (st : State)
    : option ((error + unit) * State) :=
  match constructor w (npmClient w) st with
  | (inl e, st') => Some (inl e, st')
  | (inr _, st') => installPackage fuel manifest prod st'
  end.

End Orchestrator.

(** ** Concrete registries, archives and disks used by the examples *)

Module Scenario.

Definition tarball_url (name version : string) : string :=
  NPM_REGISTRY +:+ "/" +:+ name +:+ "/-/" +:+ name +:+ "-" +:+ version
  +:+ ".tgz".

(** The descriptor packed into an archive agrees with the registry
    record it is published under. *)
Definition descriptor (name version : string) (deps : KeyValueType)
    : Package :=
  {| pkg_name := name; pkg_version := version;
     pkg_dependencies := Some deps; pkg_devDependencies := None |}.

(** A package of two files: its descriptor (120 bytes) and [index.js]
    (300 bytes). *)
Definition payload (name version : string) (deps : KeyValueType) : dirents :=
  [ (PACKAGE_FILE_NAME, RegFile 120 (Some (descriptor name version deps)));
    ("index.js", RegFile 300 None) ].

Definition digest (name version : string) : string :=
  "sha1:" +:+ name +:+ "-" +:+ version.

Definition record (name version : string) (deps : KeyValueType)
    : VersionResponse :=
  {| vr_name := name; vr_version := version;
     vr_dependencies := Some deps;
     dist := {| shasum := digest name version;
                tarball := tarball_url name version;
                dist_fileCount := Some 2;
                dist_unpackedSize := Some 420 |};
     vr_bin := BinAbsent |}.

Definition archive (name version : string) (deps : KeyValueType) : Response :=
  {| status := 200; statusText := "OK";
     body := {| body_json := None;
                body_sha1 := digest name version;
                body_size := 512;
                body_untar := Some (payload name version deps) |} |}.

Definition document (name : string) (vs : Js.Obj VersionResponse) : Response :=
  {| status := 200; statusText := "OK";
     body := {| body_json := Some {| pr_name := name; versions := vs |};
                body_sha1 := "sha1:doc-" +:+ name;
                body_size := 1024;
                body_untar := None |} |}.

Definition not_found : Response :=
  {| status := 404; statusText := "Not Found";
     body := {| body_json := None; body_sha1 := "sha1:404";
                body_size := 9; body_untar := None |} |}.

Definition serve (table : Js.Obj Response) : World :=
  {| fetch := Js.get table; cwd := "/home/dev/project" |}.

Definition empty_disk : State :=
  {| caches := ∅; nm_exists := false; mods := ∅; bin := None; log := [] |}.

Definition manifest (deps : KeyValueType) : Package :=
  {| pkg_name := "project"; pkg_version := "0.0.0";
     pkg_dependencies := Some deps; pkg_devDependencies := None |}.

(** Forgets the effect log of earlier runs. *)
Definition fresh_log (st : State) : State :=
  {| caches := caches st; nm_exists := nm_exists st; mods := mods st;
     bin := bin st; log := [] |}.

(** *** Upgrade: [a] is installed at 1.0.0 and the project asks for
    [^2.0.0]; 1.0.0 requires [b], 2.0.0 requires [c] instead. *)
Definition a_versions : Js.Obj VersionResponse :=
  [ ("1.0.0", record "a" "1.0.0" [("b", "^1.0.0")]);
    ("2.0.0", record "a" "2.0.0" [("c", "^1.0.0")]) ].

Definition upgrade_world : World :=
  serve
    [ (NPM_REGISTRY +:+ "/a", document "a" a_versions);
      (NPM_REGISTRY +:+ "/b", document "b" [("1.0.0", record "b" "1.0.0" [])]);
      (NPM_REGISTRY +:+ "/c", document "c" [("1.0.0", record "c" "1.0.0" [])]);
      (tarball_url "a" "1.0.0", archive "a" "1.0.0" [("b", "^1.0.0")]);
      (tarball_url "a" "2.0.0", archive "a" "2.0.0" [("c", "^1.0.0")]);
      (tarball_url "b" "1.0.0", archive "b" "1.0.0" []);
      (tarball_url "c" "1.0.0", archive "c" "1.0.0" []) ].

Definition upgrade_disk : State :=
  {| caches := ∅; nm_exists := true;
     mods := {[ "a" := payload "a" "1.0.0" [("b", "^1.0.0")] ]};
     bin := None; log := [] |}.

Definition upgrade_manifest : Package := manifest [("a", "^2.0.0")].

(** *** Cycle: [a] requires [b] and [b] requires [a], both with the
    empty range (any version). *)
Definition cycle_world : World :=
  serve
    [ (NPM_REGISTRY +:+ "/a",
       document "a" [("1.0.0", record "a" "1.0.0" [("b", "")])]);
      (NPM_REGISTRY +:+ "/b",
       document "b" [("1.0.0", record "b" "1.0.0" [("a", "")])]);
      (tarball_url "a" "1.0.0", archive "a" "1.0.0" [("b", "")]);
      (tarball_url "b" "1.0.0", archive "b" "1.0.0" [("a", "")]) ].

Definition cycle_manifest : Package := manifest [("a", "")].

(** The cycle after the constructor and after each of its first two
    levels; from [cycle_state] on, both modules are installed. *)
Definition cycle_start : State :=
  snd (constructor cycle_world (npmClient cycle_world) empty_disk).

Definition cycle_first_level : (error + KeyValueType * KeyValueType) * State :=
  installDependencies (H := SemverFragment.lib) cycle_world
    [] [("a", "")] cycle_start.

Definition cycle_second_level : (error + KeyValueType * KeyValueType) * State :=
  installDependencies (H := SemverFragment.lib) cycle_world
    [("a", "")] [("b", "")] (snd cycle_first_level).

Definition cycle_ledger : KeyValueType := [("a", ""); ("b", "")].

Definition cycle_state : State := snd cycle_second_level.

(** *** The same cycle with the range [*]. *)
Definition star_world : World :=
  serve
    [ (NPM_REGISTRY +:+ "/a",
       document "a" [("1.0.0", record "a" "1.0.0" [("b", "*")])]);
      (NPM_REGISTRY +:+ "/b",
       document "b" [("1.0.0", record "b" "1.0.0" [("a", "*")])]);
      (tarball_url "a" "1.0.0", archive "a" "1.0.0" [("b", "*")]);
      (tarball_url "b" "1.0.0", archive "b" "1.0.0" [("a", "*")]) ].

Definition star_manifest : Package := manifest [("a", "*")].

(** *** Resolution: no published version of [zlib] satisfies [^2.0.0]. *)
Definition zlib_doc : PackageResponse :=
  {| pr_name := "zlib";
     versions := [("1.0.0", record "zlib" "1.0.0" [])] |}.

Definition zlib_world : World :=
  serve
    [ (NPM_REGISTRY +:+ "/zlib", document "zlib" (versions zlib_doc));
      (tarball_url "zlib" "1.0.0", archive "zlib" "1.0.0" []) ].

Definition zlib_manifest : Package := manifest [("zlib", "^2.0.0")].

(** *** Registry failure: the registry answers 404 for [left-pad]. *)
Definition missing_world : World :=
  serve [ (NPM_REGISTRY +:+ "/left-pad", not_found) ].



(** *** Range resolution: the published versions of the example. *)
Definition example_doc : PackageResponse :=
  {| pr_name := "example";
     versions := [ ("1.0.0", record "example" "1.0.0" []);
                   ("1.2.0", record "example" "1.2.0" []);
                   ("1.9.3", record "example" "1.9.3" []);
                   ("2.0.0", record "example" "2.0.0" []) ] |}.

(** *** Census: a directory holding one link to a ten-byte file and one
    special file, and no regular file of its own. *)
Definition linked_dir : dirents :=
  [ ("current", Symlink (Some (RegFile 10 None)));
    ("socket", Special) ].

(** *** Cache: a client for [/srv/other] built by a process whose
    current directory has no cache yet. *)
Definition other_client : NpmClient :=
  {| registryUrl := NPM_REGISTRY; workingDir := "/srv/other";
     cacheable := true |}.

Definition stale_doc : PackageResponse :=
  {| pr_name := "stale"; versions := [] |}.

Definition stale_disk : State :=
  {| caches := {[ "/srv/other" := {[ "stale" := stale_doc ]} ]};
     nm_exists := false; mods := ∅; bin := None; log := [] |}.

End Scenario.


(** ** Specification-side definitions *)

Section SumEntries.
Context (f : node -> Z).

Fixpoint sum_entries (es : dirents) : Z :=
  match es with
  | [] => 0
  | (_, c) :: rest => f c + sum_entries rest
  end.
End SumEntries.

Section AnyEntry.
Context (f : node -> bool).

Fixpoint any_entry (es : dirents) : bool :=
  match es with
  | [] => false
  | (_, c) :: rest => f c || any_entry rest
  end.
End AnyEntry.

(** The regular files of a tree, as the spec words them: files reached
    through directories only, links and special files left out. *)
Fixpoint regular_count (n : node) : Z :=
  match n with
  | RegFile _ _ => 1
  | Dir es => sum_entries regular_count es
  | Special => 0
  | Symlink _ => 0
  end.

Fixpoint regular_size (n : node) : Z :=
  match n with
  | RegFile sz _ => sz
  | Dir es => sum_entries regular_size es
  | Special => 0
  | Symlink _ => 0
  end.

(** The same sums when a link stands for the node it resolves to. *)
Fixpoint followed_count (n : node) : Z :=
  match n with
  | RegFile _ _ => 1
  | Dir es => sum_entries followed_count es
  | Special => 0
  | Symlink None => 0
  | Symlink (Some target) => followed_count target
  end.

Fixpoint followed_size (n : node) : Z :=
  match n with
  | RegFile sz _ => sz
  | Dir es => sum_entries followed_size es
  | Special => 0
  | Symlink None => 0
  | Symlink (Some target) => followed_size target
  end.

Definition followed (n : node) : FolderStat :=
  {| fileCount := followed_count n; totalSize := followed_size n |}.

(** A dangling link is reachable. *)
Fixpoint dangling (n : node) : bool :=
  match n with
  | RegFile _ _ => false
  | Dir es => any_entry dangling es
  | Special => false
  | Symlink None => true
  | Symlink (Some target) => dangling target
  end.

(** A link occurs somewhere in the tree. *)
Fixpoint has_link (n : node) : bool :=
  match n with
  | RegFile _ _ => false
  | Dir es => any_entry has_link es
  | Special => false
  | Symlink _ => true
  end.

Definition is_dir (n : node) : bool :=
  match n with
  | Dir _ => true
  | _ => false
  end.



(** The module directory as [downloadModule] finds or creates it. *)
Definition dir_of (st : State) (key : string) : dirents :=
  default [] (mods st !! key).

(** The effective package name and range of a requirement, as
    [installDependencies] derives them. *)
Definition packageName_of (key required : string) : string :=
  if isVersionContainPackageName required
  then extractPackageNameFromVersion required else key.

(** ** Further definitions: tidy archives, settled states, finite graphs

    The predicates below are conditions on registries and disks under
    which the orchestrator is studied as a whole.  As in [State], module
    directories are addressed by dependency key: the keys are taken to
    name directories that do not contain one another (which holds for
    plain and for scoped package names). *)

Section AllEntry.
Context (f : node -> bool).

End AllEntry.





(** *** Finite requirement graphs

    [N] lists the names that may be required.  A requirement is in order
    when its name is in [N] and its sanitized range is not empty (so that
    the ledger entry made for it is truthy). *)
Definition requirement_ok (N : list string) (kv : string * string) : bool :=
  bool_decide (fst kv ∈ N)
  && Js.truthy (Some (extractVersionFromVersion (snd kv))).

Definition deps_ok (N : list string) (deps : KeyValueType) : bool :=
  forallb (requirement_ok N) deps.

(** A file that may be read as a descriptor requires only names of [N]. *)
Definition descriptor_ok (N : list string) (n : node) : bool :=
  match readJson n with
  | inr pkg => deps_ok N (default [] (pkg_dependencies pkg))
  | inl _ => true
  end.

Definition dir_ok (N : list string) (d : dirents) : bool :=
  match Js.get d PACKAGE_FILE_NAME with
  | Some n => descriptor_ok N n
  | None => true
  end.

Definition document_ok (N : list string) (doc : PackageResponse) : bool :=
  forallb (fun kv => deps_ok N (default [] (vr_dependencies (snd kv))))
          (versions doc).

(** What a response may be read as: a metadata document, or an archive
    whose descriptors are in order. *)
Definition response_ok (N : list string) (r : Response) : bool :=
  match body_json (body r) with
  | Some doc => document_ok N doc
  | None => true
  end
  && match body_untar (body r) with
     | Some members =>
         forallb (fun e => negb (String.eqb (fst e) PACKAGE_FILE_NAME)
                           || descriptor_ok N (snd e)) members
     | None => true
     end.

Definition world_ok (N : list string) (w : World) : Prop :=
  forall url r, fetch w url = Some r -> response_ok N r = true.

Definition disk_ok (N : list string) (st : State) : Prop :=
  forall key d, mods st !! key = Some d -> dir_ok N d = true.

Definition cache_ok (N : list string) (w : World) (st : State) : Prop :=
  forall c name doc,
    caches st !! cwd w = Some c -> c !! name = Some doc ->
    document_ok N doc = true.

(** The names of [N] that the ledger does not hold with a truthy entry. *)
Definition pending (N : list string) (processed : KeyValueType) : nat :=
  length (filter (fun k => Js.truthy (Js.get processed k) = false) N).


(** *** Settled trees

    What a second run finds when the first one has done its work. *)

(** The document the registry answers with for [packageName], when it
    answers with one. *)
Definition served (w : World) (packageName : string)
    : option PackageResponse :=
  match fetch w (NPM_REGISTRY +:+ "/" +:+ packageName) with
  | Some response =>
      if ok response then body_json (body response) else None
  | None => None
  end.

Definition lookup_of (packageName : string) : event :=
  EvFetch (NPM_REGISTRY +:+ "/" +:+ packageName).

(** The descriptor [readPackageJson] reads in a module directory. *)
Definition descriptor_of (d : dirents) : option Package :=
  match Js.get d PACKAGE_FILE_NAME with
  | Some n => match readJson n with inr pkg => Some pkg | inl _ => None end
  | None => None
  end.

(** The requirement [kv] is settled in the modules [m]: the module is
    installed at a version in the range, the registry holds the record of
    that version, the census of the directory equals the numbers of the
    record, and the record names no executable. *)
Definition settled `{SemverLib} (w : World) (m : gmap string dirents)
    (kv : string * string) : bool :=
  let range := extractVersionFromVersion (snd kv) in
  Js.truthy (Some range)
  && match m !! fst kv, served w (packageName_of (fst kv) (snd kv)) with
     | Some d, Some doc =>
         match descriptor_of d with
         | Some pkg =>
             satisfies (pkg_version pkg) range
             && match Js.get (versions doc) (pkg_version pkg),
                      getFolderStat d with
                | Some record, Some census =>
                    strict_eq (fileCount census)
                              (dist_fileCount (dist record))
                    && strict_eq (totalSize census)
                                 (dist_unpackedSize (dist record))
                    && negb (bin_truthy (vr_bin record))
                | _, _ => false
                end
         | None => false
         end
     | _, _ => false
     end.

(** Every descriptor on disk requires settled modules only. *)
Definition closed `{SemverLib} (w : World) (m : gmap string dirents) : Prop :=
  forall key d pkg,
    m !! key = Some d -> descriptor_of d = Some pkg ->
    forallb (settled w m) (default [] (pkg_dependencies pkg)) = true.

(** The cache of the working directory holds what the registry serves. *)
Definition cache_from (w : World) (st : State) : Prop :=
  forall c name doc,
    caches st !! cwd w = Some c -> c !! name = Some doc ->
    served w name = Some doc.

(** The names of the installed modules. *)
Definition installed_names (m : gmap string dirents) : list string :=
  (map_to_list m).*1.

(** [a] and [b] of the cycle with the range [*], both installed. *)
Definition star_disk : State :=
  {| caches := ∅; nm_exists := true;
     mods := {[ "a" := Scenario.payload "a" "1.0.0" [("b", "*")];
                "b" := Scenario.payload "b" "1.0.0" [("a", "*")] ]};
     bin := None; log := [] |}.

(** *** Fresh installs

    What a run that starts without modules leaves behind. *)















(** The links a version declares: the name of each link and the path,
    inside the module, of the file it points to.  A [bin] given as one
    string declares one link, named like the package. *)
Definition declared_links (version : VersionResponse) : KeyValueType :=
  match vr_bin version with
  | BinAbsent => []
  | BinPath p => [(vr_name version, p)]
  | BinMap m => m
  end.

(** A name that is one path segment: [path.join(dir, name)] is then an
    entry of [dir] itself. *)
Definition segment (name : string) : bool :=
  negb (Js.includes "/"%char name)
  && negb (String.eqb name "") && negb (String.eqb name ".")
  && negb (String.eqb name "..").


(** *** Keys on which the association lists are exact *)

(** The property names of [Object.prototype].  A read [o[key]] of a plain
    object that has no own property [key] yields, for these names, a
    function or the prototype itself, which is truthy. *)
Definition object_prototype_names : list string :=
  [ "constructor"; "__defineGetter__"; "__defineSetter__"; "hasOwnProperty";
    "__lookupGetter__"; "__lookupSetter__"; "isPrototypeOf";
    "propertyIsEnumerable"; "toString"; "valueOf"; "__proto__";
    "toLocaleString" ].

Definition inherited (key : string) : bool :=
  bool_decide (key ∈ object_prototype_names).

Fixpoint all_digits (s : string) : bool :=
  match s with
  | EmptyString => true
  | String c rest =>
      let n := N_of_ascii c in
      (48 <=? n)%N && (n <=? 57)%N && all_digits rest
  end.

(** A key made of decimal digits only.  Every canonical array index is
    one, and [Object.keys] lists those before the other keys. *)
Definition index_like (key : string) : bool :=
  negb (String.eqb key "") && all_digits key.

(** A key that the loop does not skip for its name, and that keeps its
    place in the order of insertion. *)
Definition plain_key (key : string) : bool :=
  negb (inherited key) && negb (index_like key).


(** * Properties *)

(** ** Strings and objects *)

Lemma split_no_separator (sep : ascii) (s : string) :
  Js.includes sep s = false -> Js.split sep s = [s].
Proof.
  induction s as [|c s IH]; simpl; [done|].
  destruct (Ascii.eqb c sep) eqn:E; simpl; [done|].
  intros Hs. by rewrite (IH Hs).
Qed.

Lemma split_at_first (sep : ascii) (a b : string) :
  Js.includes sep a = false ->
  Js.split sep (a +:+ String sep b) = a :: Js.split sep b.
Proof.
  induction a as [|c a IH]; simpl.
  - intros _. by rewrite Ascii.eqb_refl.
  - destruct (Ascii.eqb c sep) eqn:E; simpl; [done|].
    intros Ha. by rewrite (IH Ha).
Qed.

Lemma get_keys {V} (o : Js.Obj V) (k : string) (v : V) :
  Js.get o k = Some v -> k ∈ Js.keys o.
Proof.
  induction o as [|[k' v'] o IH]; simpl; [done|].
  destruct (String.eqb k' k) eqn:E.
  - apply String.eqb_eq in E as ->. intros _. apply list_elem_of_here.
  - intros Hg. apply list_elem_of_further. by apply IH.
Qed.

Lemma get_set_eq {V} (o : Js.Obj V) (k : string) (v : V) :
  Js.get (Js.set k v o) k = Some v.
Proof.
  induction o as [|[k' v'] o IH]; simpl.
  - by rewrite String.eqb_refl.
  - destruct (String.eqb k' k) eqn:E; simpl.
    + by rewrite String.eqb_refl.
    + by rewrite E.
Qed.

Lemma get_set_ne {V} (o : Js.Obj V) (k k' : string) (v : V) :
  k <> k' -> Js.get (Js.set k v o) k' = Js.get o k'.
Proof.
  intros Hne. induction o as [|[k0 v0] o IH]; simpl.
  - apply String.eqb_neq in Hne. by rewrite Hne.
  - destruct (String.eqb k0 k) eqn:E; simpl.
    + apply String.eqb_eq in E as ->.
      apply String.eqb_neq in Hne. by rewrite Hne.
    + destruct (String.eqb k0 k'); [done|]. apply IH.
Qed.

(** ** Range helpers *)

Lemma sanitized_plain (range : string) :
  Js.includes at_sign range = false -> getSanitizedVersion range = range.
Proof.
  intros Hr. unfold getSanitizedVersion.
  by rewrite (split_no_separator _ _ Hr).
Qed.

Lemma sanitized_prefixed (name range : string) :
  Js.includes at_sign name = false ->
  Js.includes at_sign range = false ->
  getSanitizedVersion (name +:+ "@" +:+ range) = range.
Proof.
  intros Hn Hr. unfold getSanitizedVersion.
  change (name +:+ "@" +:+ range) with (name +:+ String at_sign range).
  rewrite (split_at_first _ _ _ Hn), (split_no_separator _ _ Hr). done.
Qed.


Lemma includes_iff (c : ascii) (s : string) :
  Js.includes c s = true <-> exists a b, s = a +:+ String c b.
Proof.
  induction s as [|d s IH]; simpl.
  - split; [done|]. intros (a & b & Hab). by destruct a.
  - rewrite orb_true_iff, IH. split.
    + intros [->%Ascii.eqb_eq|(a & b & ->)].
      * by exists "", s.
      * by exists (String d a), b.
    + intros ([|e a] & b & Hab); cbn in Hab; injection Hab as Hd Hs.
      * left. subst d. apply Ascii.eqb_refl.
      * right. by exists a, b.
Qed.

(** Override parsing: the helpers on [scope:real-name@^2.0.0], and
    [isVersionContainPackageName] holds exactly when [@] occurs. *)
Theorem override_parsing :
  extractPackageNameFromVersion "scope:real-name@^2.0.0" = "real-name"
  /\ extractVersionFromVersion "scope:real-name@^2.0.0" = "^2.0.0"
  /\ forall version,
       isVersionContainPackageName version = true
       <-> exists a b, version = a +:+ String at_sign b.
Proof.
  split; [done|]. split; [done|]. intros version. apply includes_iff.
Qed.

(** ** The semver interface *)

Lemma keep_max_fold `{S : SemverLib} `{!SemverLaws S} (range : string)
    (vs : list string) :
  forall (acc : option string) (seen : list string),
    match acc with
    | None => forall u, u ∈ seen -> satisfies u range = false
    | Some m =>
        m ∈ seen /\ satisfies m range = true /\
        forall u, u ∈ seen -> satisfies u range = true -> version_lt m u = false
    end ->
    match fold_left (keep_max range) vs acc with
    | None => forall u, u ∈ (seen ++ vs)%list -> satisfies u range = false
    | Some m =>
        m ∈ (seen ++ vs)%list /\ satisfies m range = true /\
        forall u, u ∈ (seen ++ vs)%list -> satisfies u range = true ->
                  version_lt m u = false
    end.
Proof.
  induction vs as [|v vs IH]; intros acc seen Hinv.
  - simpl. by rewrite app_nil_r.
  - simpl. replace (seen ++ v :: vs)%list with ((seen ++ [v]) ++ vs)%list
      by (by rewrite <- app_assoc).
    apply IH. unfold keep_max.
    destruct (satisfies v range) eqn:Hv.
    + destruct acc as [m|].
      * destruct Hinv as (Hm & Hsat & Hmax).
        destruct (Js.truthy (Some m)) eqn:Ht; simpl.
        -- destruct (version_lt m v) eqn:Hlt.
           ++ split; [set_solver|]. split; [done|].
              intros u [Hu| ->%list_elem_of_singleton]%elem_of_app Hs.
              ** destruct (version_lt v u) eqn:Hvu; [|done].
                 rewrite <- (Hmax u Hu Hs). symmetry.
                 by apply (version_lt_trans m v u).
              ** apply version_lt_irrefl.
           ++ split; [set_solver|]. split; [done|].
              intros u [Hu| ->%list_elem_of_singleton]%elem_of_app Hs; auto.
        -- exfalso. unfold Js.truthy in Ht.
           apply negb_false_iff, String.eqb_eq in Ht. subst m.
           rewrite satisfies_empty_version in Hsat. done.
      * split; [set_solver|]. split; [done|].
        intros u [Hu| ->%list_elem_of_singleton]%elem_of_app Hs.
        -- rewrite (Hinv u Hu) in Hs. done.
        -- apply version_lt_irrefl.
    + destruct acc as [m|].
      * destruct Hinv as (Hm & Hsat & Hmax).
        split; [set_solver|]. split; [done|].
        intros u [Hu| ->%list_elem_of_singleton]%elem_of_app Hs; [auto|].
        congruence.
      * intros u [Hu| ->%list_elem_of_singleton]%elem_of_app; auto.
Qed.

Lemma maxSatisfying_spec `{S : SemverLib} `{!SemverLaws S}
    (vs : list string) (range : string) :
  match maxSatisfying vs range with
  | None => forall u, u ∈ vs -> satisfies u range = false
  | Some m =>
      m ∈ vs /\ satisfies m range = true /\
      forall u, u ∈ vs -> satisfies u range = true -> version_lt m u = false
  end.
Proof.
  apply (keep_max_fold range vs None []). intros u Hu. set_solver.
Qed.

(** Without any law: when no candidate satisfies the range the result is
    [null]. *)
Lemma maxSatisfying_none `{S : SemverLib} (vs : list string) (range : string) :
  forallb (fun v => negb (satisfies v range)) vs = true ->
  maxSatisfying vs range = None.
Proof.
  unfold maxSatisfying. induction vs as [|v vs IH]; simpl; [done|].
  intros [Hv Hvs]%andb_true_iff. unfold keep_max at 2.
  apply negb_true_iff in Hv. rewrite Hv. by apply IH.
Qed.

Lemma triple_lt_irrefl (a : SemverFragment.triple) :
  SemverFragment.triple_lt a a = false.
Proof.
  destruct a as [[x y] z]. unfold SemverFragment.triple_lt.
  rewrite !N.ltb_irrefl. by rewrite !andb_false_r.
Qed.

Lemma triple_lt_lex (a1 a2 a3 b1 b2 b3 : N) :
  SemverFragment.triple_lt (a1, a2, a3) (b1, b2, b3) = true <->
  (a1 < b1 \/ (a1 = b1 /\ (a2 < b2 \/ (a2 = b2 /\ a3 < b3))))%N.
Proof.
  unfold SemverFragment.triple_lt.
  rewrite !orb_true_iff, !andb_true_iff, !orb_true_iff, !andb_true_iff,
    !N.ltb_lt, !N.eqb_eq.
  tauto.
Qed.

Lemma triple_lt_trans (a b c : SemverFragment.triple) :
  SemverFragment.triple_lt a b = true ->
  SemverFragment.triple_lt b c = true ->
  SemverFragment.triple_lt a c = true.
Proof.
  destruct a as [[a1 a2] a3], b as [[b1 b2] b3], c as [[c1 c2] c3].
  rewrite !triple_lt_lex. lia.
Qed.

#[export] Instance fragment_laws : SemverLaws SemverFragment.lib.
Proof.
  split.
  - intros a. simpl. unfold SemverFragment.version_lt.
    destruct (SemverFragment.parse_version a); [|done].
    apply triple_lt_irrefl.
  - intros a b c. simpl. unfold SemverFragment.version_lt.
    destruct (SemverFragment.parse_version a); [|done].
    destruct (SemverFragment.parse_version b); [|done].
    destruct (SemverFragment.parse_version c); [|done].
    apply triple_lt_trans.
  - intros range. reflexivity.
Qed.


Lemma keys_get {V} (o : Js.Obj V) (k : string) :
  k ∈ Js.keys o -> is_Some (Js.get o k).
Proof.
  induction o as [|[k' v'] o IH]; simpl.
  - intros Hk. by apply elem_of_nil in Hk.
  - destruct (String.eqb k' k) eqn:E; [by eexists|].
    intros [Hk|Hk]%elem_of_cons; [|by apply IH].
    subst k'. by rewrite String.eqb_refl in E.
Qed.

(** C10: [getSanitizedVersion] and [extractVersionFromVersion] return the
    same string on every input. *)
Theorem getSanitizedVersion_extractVersionFromVersion (v : string) :
  getSanitizedVersion v = extractVersionFromVersion v.
Proof. reflexivity. Qed.

(** C5, as stated, fails on a scoped package name: for the requirement
    [@scope/example@^1.0.0] the prefix [@scope/example@] is not stripped;
    the text between the first two [@] is taken as the range, no published
    version matches it, and the result is [undefined], although [1.9.3]
    is the maximum published version satisfying [^1.0.0]. *)
Lemma getClosestVersion_scoped_name :
  let S := SemverFragment.lib in
  getSanitizedVersion ("@scope/example" +:+ "@" +:+ "^1.0.0") = "scope/example"
  /\ getClosestVersion Scenario.example_doc
       ("@scope/example" +:+ "@" +:+ "^1.0.0") = None
  /\ maxSatisfying (Js.keys (versions Scenario.example_doc)) "^1.0.0"
     = Some "1.9.3".
Proof. vm_compute. done. Qed.

(** C5 (amended): when neither the name nor the range contains [@],
    [getClosestVersion] treats [name@range] like [range], and returns the
    Version Record keyed by the maximum published version that satisfies
    the range (the property read at the key [null] when there is none);
    for the published versions 1.0.0, 1.2.0, 1.9.3, 2.0.0 and the range
    [^1.0.0] this is the record of 1.9.3. *)
Theorem getClosestVersion_max_satisfying :
  (forall (S : SemverLib) (L : SemverLaws S) (doc : PackageResponse)
          (name range : string),
      Js.includes at_sign name = false ->
      Js.includes at_sign range = false ->
      let published := Js.keys (versions doc) in
      getClosestVersion doc (name +:+ "@" +:+ range)
      = getClosestVersion doc range
      /\ match maxSatisfying published range with
         | Some v =>
             (exists record, getClosestVersion doc range = Some record
                             /\ Js.get (versions doc) v = Some record)
             /\ v ∈ published /\ satisfies v range = true
             /\ forall u, u ∈ published -> satisfies u range = true ->
                          version_lt v u = false
         | None =>
             getClosestVersion doc range = Js.get (versions doc) "null"
             /\ forall u, u ∈ published -> satisfies u range = false
         end)
  /\ getClosestVersion (H := SemverFragment.lib) Scenario.example_doc "^1.0.0"
     = Some (Scenario.record "example" "1.9.3" []).
Proof.
  split; [|by vm_compute].
  intros S L doc name range Hn Hr published. split.
  - unfold getClosestVersion.
    by rewrite (sanitized_prefixed _ _ Hn Hr), (sanitized_plain _ Hr).
  - unfold getClosestVersion. rewrite (sanitized_plain _ Hr).
    fold published.
    pose proof (maxSatisfying_spec published range) as Hmax.
    destruct (maxSatisfying published range) as [v|]; simpl.
    + destruct Hmax as (Hin & Hsat & Hmax). split; [|done].
      destruct (keys_get _ _ Hin) as [record Hrec]. exists record.
      unfold Js.get_nullable. simpl. done.
    + done.
Qed.

(** The prefixed and the plain requirement of the example resolve alike. *)
Lemma getClosestVersion_max_satisfying_witness :
  getClosestVersion (H := SemverFragment.lib) Scenario.example_doc
    ("example" +:+ "@" +:+ "^1.0.0")
  = getClosestVersion (H := SemverFragment.lib) Scenario.example_doc "^1.0.0".
Proof.
  exact (proj1 (proj1 getClosestVersion_max_satisfying
                  SemverFragment.lib fragment_laws Scenario.example_doc
                  "example" "^1.0.0" eq_refl eq_refl)).
Defined.


(** ** The directory census *)

Lemma node_induction (P : node -> Prop) :
  (forall sz json, P (RegFile sz json)) ->
  (forall es, Forall (fun e => P (snd e)) es -> P (Dir es)) ->
  P Special ->
  P (Symlink None) ->
  (forall target, P target -> P (Symlink (Some target))) ->
  forall n, P n.
Proof.
  intros HReg HDir HSpecial HNone HSome. fix IH 1.
  intros [sz json|es| |[target|]].
  - apply HReg.
  - apply HDir. induction es as [|[name c] es IHes]; constructor.
    + apply IH.
    + apply IHes.
  - apply HSpecial.
  - apply HSome, IH.
  - apply HNone.
Qed.

Lemma addFolderStat_new_l (a : FolderStat) : addFolderStat newFolderStat a = a.
Proof. destruct a. unfold addFolderStat. simpl. f_equal. Qed.

Lemma forEach_visit_sum (es : dirents) :
  Forall (fun e => forall acc,
            visit (snd e) acc =
            if dangling (snd e) then None
            else Some (addFolderStat acc (followed (snd e)))) es ->
  forall acc,
    forEach visit es acc =
    if any_entry dangling es then None
    else Some (addFolderStat acc
                 {| fileCount := sum_entries followed_count es;
                    totalSize := sum_entries followed_size es |}).
Proof.
  induction 1 as [|[name c] es Hc _ IH]; intros acc; simpl.
  - f_equal. destruct acc as [fc ts]. unfold addFolderStat. simpl.
    by rewrite !Z.add_0_r.
  - simpl in Hc. rewrite Hc. destruct (dangling c); simpl; [done|].
    rewrite IH. destruct (any_entry dangling es); [done|].
    f_equal. unfold addFolderStat, followed. simpl. f_equal; lia.
Qed.

Lemma visit_sum (n : node) :
  forall acc,
    visit n acc =
    if dangling n then None else Some (addFolderStat acc (followed n)).
Proof.
  induction n as [sz json|es IH| | |target IH] using node_induction;
    intros acc.
  - simpl. unfold addFileStat, addFolderStat, followed. simpl. done.
  - simpl. rewrite (forEach_visit_sum es IH).
    destruct (any_entry dangling es); [done|].
    rewrite addFolderStat_new_l. done.
  - simpl. f_equal. destruct acc as [fc ts].
    unfold addFileStat, addFolderStat, followed. simpl.
    by rewrite !Z.add_0_r.
  - done.
  - simpl. apply IH.
Qed.

Lemma no_link_sums (n : node) :
  has_link n = false ->
  dangling n = false /\ followed_count n = regular_count n
  /\ followed_size n = regular_size n.
Proof.
  induction n as [sz json|es IH| | |target IH] using node_induction;
    simpl; try done.
  induction IH as [|[name c] es Hc _ IHes]; simpl; [done|].
  intros [Hl Hls]%orb_false_iff. simpl in Hc.
  destruct (Hc Hl) as (-> & -> & ->).
  destruct (IHes Hls) as (-> & -> & ->). done.
Qed.

(** C6, as stated, fails: a directory whose only entries are a symbolic
    link to a ten-byte file and a special file holds no regular file, yet
    the census reports one file of ten bytes, because [statSync] follows
    the link. *)
Lemma getFolderStat_counts_link_target :
  getFolderStat Scenario.linked_dir
  = Some {| fileCount := 1; totalSize := 10 |}
  /\ sum_entries regular_count Scenario.linked_dir = 0
  /\ sum_entries regular_size Scenario.linked_dir = 0.
Proof. vm_compute. done. Qed.

(** C6 (amended): for every directory tree the census counts the entries
    whose status, read through symbolic links, is that of a regular file:
    directories and special files add nothing, a symbolic link adds what
    the node it resolves to adds, and a dangling link makes the census
    throw.  In a tree without symbolic links the file count and the size
    sum are exactly those of its regular files. *)
Theorem getFolderStat_follows_links (d : dirents) :
  getFolderStat d
  = (if any_entry dangling d then None
     else Some {| fileCount := sum_entries followed_count d;
                  totalSize := sum_entries followed_size d |})
  /\ (any_entry has_link d = false ->
      getFolderStat d
      = Some {| fileCount := sum_entries regular_count d;
                totalSize := sum_entries regular_size d |}).
Proof.
  assert (Hall : getFolderStat d
    = if any_entry dangling d then None
      else Some {| fileCount := sum_entries followed_count d;
                   totalSize := sum_entries followed_size d |}).
  { unfold getFolderStat. rewrite forEach_visit_sum.
    - destruct (any_entry dangling d); [done|].
      by rewrite addFolderStat_new_l.
    - apply Forall_forall. intros e _. apply visit_sum. }
  split; [exact Hall|].
  intros Hl. rewrite Hall.
  pose proof (no_link_sums (Dir d) Hl) as (Hd & Hc & Hs).
  simpl in Hd, Hc, Hs. rewrite Hd, Hc, Hs. done.
Qed.

(** The census of a two-file package without links. *)
Lemma getFolderStat_follows_links_witness :
  getFolderStat (Scenario.payload "a" "1.0.0" [])
  = Some {| fileCount := 2; totalSize := 420 |}.
Proof.
  exact (proj2 (getFolderStat_follows_links (Scenario.payload "a" "1.0.0" []))
               eq_refl).
Defined.


(** ** The registry client *)

(** C3, as stated, fails: when the registry answers 404 for [left-pad],
    the thrown error's message is the fixed text followed by the status
    text; it contains neither the package name nor the status code. *)
Lemma getPackage_message_lacks_name_and_status :
  let w := Scenario.missing_world in
  let thrown :=
    fst (getPackage w (npmClient w) "left-pad" Scenario.empty_disk) in
  thrown = inl (Error "Failed to download package: Not Found")
  /\ Js.contains "left-pad" (thrown_message thrown) = false
  /\ Js.contains "404" (thrown_message thrown) = false.
Proof. vm_compute. done. Qed.

(** C3 (amended): for every package name that has no cache entry and
    whose registry fetch returns a non-success HTTP status, [getPackage]
    throws an error whose message is ["Failed to download package: "]
    followed by the response's status text, and writes nothing to the
    cache. *)
Theorem getPackage_registry_failure (w : World) (this : NpmClient)
    (packageName : string) (st : State) (response : Response) :
  (cacheable this = true ->
   caches st !! workingDir this ≫= (fun dir => dir !! packageName) = None) ->
  fetch w (registryUrl this +:+ "/" +:+ packageName) = Some response ->
  ok response = false ->
  exists st',
    getPackage w this packageName st
    = (inl (Error ("Failed to download package: " +:+ statusText response)),
       st')
    /\ caches st' = caches st
    /\ mods st' = mods st.
Proof.
  intros Hmiss Hfetch Hok. eexists.
  unfold getPackage, readPackageInfoCache, downloadPackageInfo, do_fetch,
    emit, modify, bind, gets, ret, throw.
  destruct (cacheable this) eqn:Hc; simpl.
  - rewrite (Hmiss eq_refl). simpl. rewrite Hfetch. simpl.
    rewrite Hok. simpl. done.
  - rewrite Hfetch. simpl. rewrite Hok. simpl. done.
Qed.

(** The 404 answer for [left-pad]. *)
Lemma getPackage_registry_failure_witness :
  let w := Scenario.missing_world in
  exists st',
    getPackage w (npmClient w) "left-pad" Scenario.empty_disk
    = (inl (Error ("Failed to download package: " +:+ "Not Found")), st')
    /\ caches st' = caches Scenario.empty_disk
    /\ mods st' = mods Scenario.empty_disk.
Proof.
  exact (getPackage_registry_failure Scenario.missing_world
           (npmClient Scenario.missing_world) "left-pad" Scenario.empty_disk
           Scenario.not_found (fun _ => eq_refl) eq_refl eq_refl).
Defined.

(** When the working directory is the current directory (the default) the
    constructor leaves an empty cache directory behind, whatever the cache
    held. *)
Theorem constructor_wipes_cwd_cache (w : World) (this : NpmClient) (st : State) :
  cacheable this = true ->
  workingDir this = cwd w ->
  exists st',
    constructor w this st = (inr tt, st')
    /\ caches st' !! workingDir this = Some ∅.
Proof.
  intros Hc Hwd.
  unfold constructor, when, set_caches, modify, bind, gets, ret.
  rewrite Hc, Hwd. simpl.
  destruct (caches st !! cwd w) as [dir|] eqn:Hdir; simpl.
  - rewrite bool_decide_eq_true_2 by apply lookup_delete_eq.
    eexists. split; [done|]. simpl. by rewrite lookup_insert_eq.
  - rewrite bool_decide_eq_true_2 by done.
    eexists. split; [done|]. simpl. by rewrite lookup_insert_eq.
Qed.

(** The client of the orchestrator on a disk with a stale cache. *)
Lemma constructor_wipes_cwd_cache_witness :
  let w := Scenario.serve [] in
  exists st',
    constructor w (npmClient w) Scenario.stale_disk = (inr tt, st')
    /\ caches st' !! workingDir (npmClient w) = Some ∅.
Proof.
  exact (constructor_wipes_cwd_cache (Scenario.serve [])
           (npmClient (Scenario.serve [])) Scenario.stale_disk
           eq_refl eq_refl).
Defined.

(** C9 at the failing input: the process runs in a directory without a
    cache, the client is built for [/srv/other], whose cache holds a
    document: the existence test looks at the current directory, the wipe
    is skipped, and the constructor changes nothing. *)
Theorem constructor_keeps_stale_cache :
  let w := Scenario.serve [] in
  caches Scenario.stale_disk !! cwd w = None
  /\ constructor w Scenario.other_client Scenario.stale_disk
     = (inr tt, Scenario.stale_disk)
  /\ caches Scenario.stale_disk !! workingDir Scenario.other_client
     = Some {[ "stale" := Scenario.stale_doc ]}.
Proof. vm_compute. done. Qed.

(** ** The orchestrator on concrete disks *)

(** C1 at the failing input: [a] is installed at 1.0.0 (requiring [b]),
    the project asks for [^2.0.0], and 2.0.0 requires [c].  The module is
    reinstalled at 2.0.0, but the requirement set returned for the next
    level is the one read from the old descriptor. *)
Theorem installDependencies_upgrade_merges_old_dependencies :
  let S := SemverFragment.lib in
  let w := Scenario.upgrade_world in
  let result :=
    installDependencies w [] [("a", "^2.0.0")] Scenario.upgrade_disk in
  fst result = inr ([("a", "^2.0.0")], [("b", "^1.0.0")])
  /\ log (snd result)
     = [ EvFetch (NPM_REGISTRY +:+ "/a");
         EvRedownloadModule "a"; EvDownloadModule "a";
         EvFetch (Scenario.tarball_url "a" "2.0.0");
         EvUnpack "a" ]
  /\ mods (snd result) !! "a"
     = Some (Scenario.payload "a" "2.0.0" [("c", "^1.0.0")])
  /\ Js.get Scenario.a_versions "2.0.0" ≫= vr_dependencies
     = Some [("c", "^1.0.0")].
Proof. vm_compute. done. Qed.

(** C8 at the failing input: the first run upgrades [a] and, following the
    old descriptor, installs [b]; the second run, on the tree the first one
    left and with the same manifest and registry, reads the new descriptor
    of [a] and downloads [c]. *)
Theorem second_run_downloads_after_upgrade :
  let S := SemverFragment.lib in
  let w := Scenario.upgrade_world in
  let first :=
    run w 3 Scenario.upgrade_manifest false Scenario.upgrade_disk in
  let second :=
    first ≫= fun r =>
      run w 3 Scenario.upgrade_manifest false (Scenario.fresh_log (snd r)) in
  fst <$> first = Some (inr tt)
  /\ fst <$> second = Some (inr tt)
  /\ (fun r => log (snd r)) <$> second
     = Some [ EvFetch (NPM_REGISTRY +:+ "/a");
              EvFetch (NPM_REGISTRY +:+ "/c");
              EvDownloadModule "c";
              EvFetch (Scenario.tarball_url "c" "1.0.0");
              EvUnpack "c" ]
  /\ (fun r => mods (snd r) !! "c") <$> first = Some None
  /\ (fun r => mods (snd r) !! "c") <$> second
     = Some (Some (Scenario.payload "c" "1.0.0" [])).
Proof. vm_compute. done. Qed.


(** *** The cycle with empty ranges *)

Lemma cycle_reaches_steady_state :
  constructor Scenario.cycle_world (npmClient Scenario.cycle_world)
    Scenario.empty_disk = (inr tt, Scenario.cycle_start)
  /\ Scenario.cycle_first_level = (inr ([("a", "")], [("b", "")]), snd Scenario.cycle_first_level)
  /\ Scenario.cycle_second_level = (inr (Scenario.cycle_ledger, [("a", "")]), Scenario.cycle_state).
Proof. vm_compute. done. Qed.

Lemma cycle_level_a :
  installDependencies (H := SemverFragment.lib) Scenario.cycle_world
    Scenario.cycle_ledger [("a", "")] Scenario.cycle_state
  = (inr (Scenario.cycle_ledger, [("b", "")]), Scenario.cycle_state).
Proof. vm_compute. done. Qed.

Lemma cycle_level_b :
  installDependencies (H := SemverFragment.lib) Scenario.cycle_world
    Scenario.cycle_ledger [("b", "")] Scenario.cycle_state
  = (inr (Scenario.cycle_ledger, [("a", "")]), Scenario.cycle_state).
Proof. vm_compute. done. Qed.

Lemma doWhile_unfold `{S : SemverLib} (w : World) (fuel : nat)
    (processed required : KeyValueType) (st : State) :
  doWhile w (Datatypes.S fuel) processed required st
  = match installDependencies w processed required st with
    | (inl e, st') => Some (inl e, st')
    | (inr (processed', next), st') =>
        if (0 <? length (Js.keys next))%nat
        then doWhile w fuel processed' next st'
        else Some (inr tt, st')
    end.
Proof. reflexivity. Qed.

Lemma cycle_spins (fuel : nat) :
  doWhile (H := SemverFragment.lib) Scenario.cycle_world fuel
    Scenario.cycle_ledger [("a", "")] Scenario.cycle_state = None
  /\ doWhile (H := SemverFragment.lib) Scenario.cycle_world fuel
       Scenario.cycle_ledger [("b", "")] Scenario.cycle_state = None.
Proof.
  induction fuel as [|fuel [IHa IHb]]; [done|].
  rewrite !doWhile_unfold, cycle_level_a, cycle_level_b. simpl.
  by rewrite IHa, IHb.
Qed.

(** C7 at the failing input: [a] requires [b] and [b] requires [a], both
    with the empty range.  The ledger stores the range under the name and
    the skip test reads it for truthiness, so a name recorded with the
    empty string is not skipped: once both modules are installed every
    further level processes one of them again and returns the other as the
    next level, and no amount of fuel ends the loop. *)
Theorem installPackage_cycle_never_terminates :
  (forall fuel,
     run (H := SemverFragment.lib) Scenario.cycle_world fuel
       Scenario.cycle_manifest false Scenario.empty_disk = None)
  /\ Js.get Scenario.cycle_ledger "a" = Some ""
  /\ installDependencies (H := SemverFragment.lib) Scenario.cycle_world
       Scenario.cycle_ledger [("a", "")] Scenario.cycle_state
     = (inr (Scenario.cycle_ledger, [("b", "")]), Scenario.cycle_state).
Proof.
  split; [|split; [done|apply cycle_level_a]].
  intros fuel. unfold run.
  destruct cycle_reaches_steady_state as (-> & Hfirst & Hsecond).
  unfold installPackage.
  change (getPackageDependencies Scenario.cycle_manifest false)
    with ([("a", "")] : KeyValueType).
  fold Scenario.cycle_first_level. rewrite Hfirst.
  destruct fuel as [|fuel]; [done|].
  rewrite doWhile_unfold. fold Scenario.cycle_second_level. rewrite Hsecond. simpl.
  apply cycle_spins.
Qed.


(** With the range [*] in place of the empty string the ledger entries are
    truthy: the same cycle installs [a] and [b] once each and the loop
    ends at the third level. *)
Lemma cycle_with_star_terminates :
  let outcome :=
    run (H := SemverFragment.lib) Scenario.star_world 3 Scenario.star_manifest
      false Scenario.empty_disk in
  fst <$> outcome = Some (inr tt)
  /\ (fun r => log (snd r)) <$> outcome
     = Some [ EvFetch (NPM_REGISTRY +:+ "/a");
              EvDownloadModule "a";
              EvFetch (Scenario.tarball_url "a" "1.0.0");
              EvUnpack "a";
              EvFetch (NPM_REGISTRY +:+ "/b");
              EvDownloadModule "b";
              EvFetch (Scenario.tarball_url "b" "1.0.0");
              EvUnpack "b" ].
Proof. vm_compute. done. Qed.

(** ** Unsatisfiable ranges *)

Lemma getPackage_mods (w : World) (this : NpmClient) (packageName : string)
    (st st' : State) (r : error + PackageResponse) :
  getPackage w this packageName st = (r, st') -> mods st' = mods st.
Proof.
  unfold getPackage, readPackageInfoCache, writePackageInfoCache,
    downloadPackageInfo, do_fetch, when, set_caches, emit, modify, bind,
    gets, ret, throw.
  intros Hg. repeat (case_match; simplify_eq/=); done.
Qed.

Lemma readPackageJson_state (key : string) (st : State) :
  snd (readPackageJson key st) = st.
Proof.
  unfold readPackageJson, get_dir, lift_fs, bind, gets, ret, throw.
  repeat (case_match; simplify_eq/=); done.
Qed.

Lemma isModuleValid_undefined (key : string) (st : State) :
  exists e, isModuleValid None key st = (inl e, st).
Proof.
  unfold isModuleValid, get_dir, bind, gets, ret, throw.
  repeat (case_match; simplify_eq/=); eauto.
Qed.

Lemma forallb_not_satisfied `{S : SemverLib} (vs : list string)
    (range v : string) :
  forallb (fun v => negb (satisfies v range)) vs = true ->
  v ∈ vs -> satisfies v range = false.
Proof.
  rewrite forallb_forall. intros Hall Hv.
  apply list_elem_of_In in Hv. by apply negb_true_iff, Hall.
Qed.

(** C4, as stated, fails: no published version of [zlib] satisfies
    [^2.0.0]; the run aborts with the [TypeError] thrown when
    [downloadModule] reads [dist] of an undefined Version Record, and its
    message names neither the package nor the range. *)
Lemma run_unsatisfiable_throws_TypeError :
  let w := Scenario.zlib_world in
  let outcome :=
    run (H := SemverFragment.lib) w 3 Scenario.zlib_manifest false
      Scenario.empty_disk in
  maxSatisfying (H := SemverFragment.lib)
    (Js.keys (versions Scenario.zlib_doc)) "^2.0.0" = None
  /\ fst <$> outcome = Some (inl (TypeError "dist"))
  /\ (fun r => thrown_message (fst r)) <$> outcome
     = Some "Cannot read properties of undefined (reading 'dist')"
  /\ (fun r => Js.contains "zlib" (thrown_message (fst r))) <$> outcome
     = Some false
  /\ (fun r => Js.contains "^2.0.0" (thrown_message (fst r))) <$> outcome
     = Some false.
Proof. vm_compute. done. Qed.

(** The iteration throws on an unsatisfiable range, whichever branch it
    takes. *)
Lemma installDependency_throws_on_unsatisfiable `{S : SemverLib} (w : World)
    (requiredDependencies : KeyValueType) (key : string)
    (processed next : KeyValueType) (st st1 : State) (doc : PackageResponse) :
  let required := default "" (Js.get requiredDependencies key) in
  let range := extractVersionFromVersion required in
  Js.truthy (Js.get processed key) = false ->
  getPackage w (npmClient w) (packageName_of key required) st = (inr doc, st1) ->
  forallb (fun v => negb (satisfies v range)) (Js.keys (versions doc)) = true ->
  Js.get (versions doc) "null" = None ->
  exists e st',
    installDependency w requiredDependencies key (processed, next) st
    = (inl e, st')
    /\ mods st' = mods st
    /\ (fst (existsSync_packageJson key st) = inr false -> e = TypeError "dist").
Proof.
  intros required range Hfresh Hdoc Hnone Hnull.
  pose proof (getPackage_mods _ _ _ _ _ _ Hdoc) as Hmods.
  pose proof (maxSatisfying_none _ _ Hnone) as Hmax.
  unfold installDependency. rewrite Hfresh.
  fold required. fold range.
  change (if isVersionContainPackageName required
          then extractPackageNameFromVersion required else key)
    with (packageName_of key required).
  unfold bind at 1. rewrite Hdoc.
  unfold bind at 1. unfold existsSync_packageJson at 1.
  unfold bind at 1, gets at 1, ret at 1. rewrite Hmods.
  assert (Hex : fst (existsSync_packageJson key st)
                = inr match mods st !! key with
                      | Some d => existsSync_entry d PACKAGE_FILE_NAME
                      | None => false
                      end) by done.
  rewrite Hex. clear Hex.
  destruct (match mods st !! key with
            | Some d => existsSync_entry d PACKAGE_FILE_NAME
            | None => false
            end) eqn:Hinstalled.
  - (* a module is installed *)
    unfold bind at 1. unfold bind at 1.
    pose proof (readPackageJson_state key st1) as Hread.
    destruct (readPackageJson key st1) as [[e|pkg] st2]; simpl in Hread;
      subst st2.
    { eexists _, _. split; [done|]. split; [done|]. intros; simplify_eq. }
    destruct (satisfies (pkg_version pkg) range) eqn:Hsat.
    + destruct (Js.get (versions doc) (pkg_version pkg)) as [rec|] eqn:Hrec.
      { apply get_keys in Hrec.
        rewrite (forallb_not_satisfied _ _ _ Hnone Hrec) in Hsat. done. }
      unfold bind at 1. unfold bind at 1.
      destruct (isModuleValid_undefined key st1) as [e ->].
      eexists _, _. split; [done|]. split; [done|]. intros; simplify_eq.
    + rewrite Hmax. unfold Js.get_nullable. simpl default. rewrite Hnull.
      eexists _, _. split; [reflexivity|]. split; [done|].
      intros; simplify_eq.
  - (* nothing is installed *)
    rewrite Hmax. unfold Js.get_nullable. simpl default. rewrite Hnull.
    eexists _, _. split; [reflexivity|]. split; [done|]. done.
Qed.

(** A throwing level ends [installPackage] with that error. *)
Lemma doWhile_propagates `{S : SemverLib} (w : World) (fuel : nat)
    (processed level : KeyValueType) (st st' : State) (e : error) :
  installDependencies w processed level st = (inl e, st') ->
  doWhile w (Datatypes.S fuel) processed level st = Some (inl e, st').
Proof. intros Hthrow. simpl. by rewrite Hthrow. Qed.

(** C4 (amended): when no published version satisfies the requested range
    (and no Version Record is keyed [null]), the loop iteration that
    processes the dependency (its key has no truthy ledger entry and is
    not a property name of [Object.prototype], so that the iteration is
    not skipped) throws, the [for] loop stops there whatever keys remain,
    which aborts the install run, and the module tree is left as it was;
    when the module is not installed yet, the error is the [TypeError] of
    reading [dist] on an undefined Version Record. *)
Theorem installDependency_unsatisfiable `{S : SemverLib} (w : World)
    (requiredDependencies : KeyValueType) (key : string)
    (processed next : KeyValueType) (st st1 : State) (doc : PackageResponse) :
  let required := default "" (Js.get requiredDependencies key) in
  let range := extractVersionFromVersion required in
  Js.truthy (Js.get processed key) = false ->
  inherited key = false ->
  getPackage w (npmClient w) (packageName_of key required) st = (inr doc, st1) ->
  forallb (fun v => negb (satisfies v range)) (Js.keys (versions doc)) = true ->
  Js.get (versions doc) "null" = None ->
  exists e st',
    installDependency w requiredDependencies key (processed, next) st
    = (inl e, st')
    /\ (forall rest,
          forKeys w requiredDependencies (key :: rest) (processed, next) st
          = (inl e, st'))
    /\ mods st' = mods st
    /\ (fst (existsSync_packageJson key st) = inr false -> e = TypeError "dist").
Proof.
  intros required range Hfresh _ Hdoc Hnone Hnull.
  destruct (installDependency_throws_on_unsatisfiable w requiredDependencies
              key processed next st st1 doc Hfresh Hdoc Hnone Hnull)
    as (e & st' & Hthrow & Hmods & Hdist).
  exists e, st'. split; [done|]. split; [|done].
  intros rest. cbn [forKeys]. unfold bind at 1. by rewrite Hthrow.
Qed.

(** [zlib] required at [^2.0.0] on an empty disk. *)
Lemma installDependency_unsatisfiable_witness :
  exists e st',
    installDependency (H := SemverFragment.lib) Scenario.zlib_world
      [("zlib", "^2.0.0")] "zlib" ([], []) Scenario.empty_disk
    = (inl e, st')
    /\ (forall rest,
          forKeys (H := SemverFragment.lib) Scenario.zlib_world
            [("zlib", "^2.0.0")] ("zlib" :: rest) ([], []) Scenario.empty_disk
          = (inl e, st'))
    /\ mods st' = mods Scenario.empty_disk
    /\ (fst (existsSync_packageJson "zlib" Scenario.empty_disk) = inr false ->
        e = TypeError "dist").
Proof.
  apply (installDependency_unsatisfiable (S := SemverFragment.lib)
           Scenario.zlib_world [("zlib", "^2.0.0")] "zlib" [] []
           Scenario.empty_disk
           (snd (getPackage Scenario.zlib_world
                   (npmClient Scenario.zlib_world) "zlib"
                   Scenario.empty_disk))
           Scenario.zlib_doc).
  - reflexivity.
  - reflexivity.
  - vm_compute. reflexivity.
  - reflexivity.
  - reflexivity.
Defined.


(** ** Archive download *)

Lemma remove_entry_get (name : string) (d : dirents) :
  Js.get (remove_entry name d) name = None.
Proof.
  unfold remove_entry. induction d as [|[k n] d IH]; [done|].
  rewrite filter_cons. simpl. case_decide as Hk; simpl; [|done].
  apply String.eqb_neq in Hk. by rewrite Hk.
Qed.

Lemma remove_entry_absent (name : string) (d : dirents) :
  Js.get d name = None -> remove_entry name d = d.
Proof.
  unfold remove_entry. induction d as [|[k n] d IH]; [done|]. simpl.
  destruct (String.eqb k name) eqn:Hk; [done|]. intros Hd.
  rewrite filter_cons. simpl. apply String.eqb_neq in Hk.
  rewrite decide_True by done. by rewrite IH.
Qed.




Lemma extract_entry_get_ne (nm name : string) (c : node) (d : dirents) :
  nm <> name -> Js.get (extract_entry nm c d) name = Js.get d name.
Proof.
  intros Hne. destruct c; simpl; unfold upsert; by rewrite get_set_ne.
Qed.

Lemma extract_entry_get_file (name : string) (c : node) (d : dirents) :
  is_dir c = false -> Js.get (extract_entry name c d) name = Some c.
Proof.
  intros Hc. destruct c; simpl in *; try done; unfold upsert;
    by rewrite get_set_eq.
Qed.









(** * Further properties *)

(** ** Override forms of the range helpers *)

Lemma append_assoc (a b c : string) : (a +:+ b) +:+ c = a +:+ (b +:+ c).
Proof.
  induction a as [|x a IH]; [done|].
  change (String x ((a +:+ b) +:+ c) = String x (a +:+ (b +:+ c))).
  by rewrite IH.
Qed.

Lemma includes_append (c : ascii) (a b : string) :
  Js.includes c (a +:+ b) = Js.includes c a || Js.includes c b.
Proof.
  induction a as [|x a IH]; [done|].
  change (Ascii.eqb x c || Js.includes c (a +:+ b)
          = Ascii.eqb x c || Js.includes c a || Js.includes c b).
  by rewrite IH, orb_assoc.
Qed.

(** The helpers on the forms [scope:name@range] and [name@range], for
    parts that do not contain the separators themselves, and on a plain
    range. *)
Theorem override_forms (scope name range : string) :
  Js.includes at_sign scope = false -> Js.includes colon scope = false ->
  Js.includes at_sign name = false -> Js.includes colon name = false ->
  Js.includes at_sign range = false ->
  let scoped := scope +:+ ":" +:+ name +:+ "@" +:+ range in
  let named := name +:+ "@" +:+ range in
  extractPackageNameFromVersion scoped = name
  /\ extractVersionFromVersion scoped = range
  /\ isVersionContainPackageName scoped = true
  /\ extractPackageNameFromVersion named = name
  /\ extractVersionFromVersion named = range
  /\ isVersionContainPackageName named = true
  /\ extractVersionFromVersion range = range
  /\ isVersionContainPackageName range = false.
Proof.
  intros Hs1 Hs2 Hn1 Hn2 Hr scoped named.
  assert (Hsn : Js.includes at_sign (scope +:+ String colon name) = false).
  { rewrite includes_append. simpl. by rewrite Hs1, Hn1. }
  assert (Hscoped : scoped = (scope +:+ String colon name) +:+ String at_sign range).
  { unfold scoped. by rewrite append_assoc. }
  assert (Hnamed : named = name +:+ String at_sign range) by done.
  unfold extractPackageNameFromVersion, extractVersionFromVersion,
    isVersionContainPackageName.
  rewrite Hscoped, Hnamed, !includes_append, !split_at_first by done.
  rewrite !(split_no_separator _ _ Hr). simpl.
  rewrite !orb_true_r. unfold index. simpl.
  rewrite (split_at_first _ _ _ Hs2), !(split_no_separator _ _ Hn2). simpl.
  done.
Qed.

(** The form of the spec's own example. *)
Lemma override_forms_witness :
  extractPackageNameFromVersion "scope:real-name@^2.0.0" = "real-name"
  /\ extractVersionFromVersion "scope:real-name@^2.0.0" = "^2.0.0".
Proof.
  pose proof (override_forms "scope" "real-name" "^2.0.0"
                eq_refl eq_refl eq_refl eq_refl eq_refl) as H.
  exact (conj (proj1 H) (proj1 (proj2 H))).
Defined.

(** ** Merging requirement sets *)

Lemma get_app {V} (a b : Js.Obj V) (k : string) :
  Js.get (a ++ b)%list k
  = match Js.get a k with Some v => Some v | None => Js.get b k end.
Proof.
  induction a as [|[k' v'] a IH]; simpl; [done|].
  by destruct (String.eqb k' k).
Qed.

Lemma get_set {V} (o : Js.Obj V) (k k' : string) (v : V) :
  Js.get (Js.set k v o) k' = if String.eqb k k' then Some v else Js.get o k'.
Proof.
  destruct (String.eqb k k') eqn:E.
  - apply String.eqb_eq in E as <-. apply get_set_eq.
  - apply String.eqb_neq in E. by apply get_set_ne.
Qed.

(** In [{...a, ...b}] the last entry of [b] for a key wins over [a]. *)
Lemma get_spread {V} (a b : Js.Obj V) (k : string) :
  Js.get (Js.spread a b) k
  = match Js.get (rev b) k with Some v => Some v | None => Js.get a k end.
Proof.
  unfold Js.spread. revert a.
  induction b as [|[kb vb] b IH]; intros a; simpl; [done|].
  rewrite IH, get_app, get_set. simpl.
  destruct (Js.get (rev b) k); [done|]. by destruct (String.eqb kb k).
Qed.

Lemma get_None_not_key {V} (o : Js.Obj V) (k : string) :
  Js.get o k = None <-> k ∉ Js.keys o.
Proof.
  split.
  - intros Hn Hk. apply keys_get in Hk as [v Hv]. congruence.
  - intros Hk. destruct (Js.get o k) eqn:E; [|done].
    by apply get_keys in E.
Qed.

Lemma get_rev_NoDup {V} (o : Js.Obj V) (k : string) :
  NoDup (Js.keys o) -> Js.get (rev o) k = Js.get o k.
Proof.
  induction o as [|[k' v'] o IH]; simpl; [done|].
  intros [Hk' Ho]%NoDup_cons. rewrite get_app, (IH Ho). simpl.
  destruct (String.eqb k' k) eqn:E.
  - apply String.eqb_eq in E as ->.
    apply get_None_not_key in Hk'. by rewrite Hk'.
  - by destruct (Js.get o k).
Qed.



Lemma keys_set_cases {V} (o : Js.Obj V) (k : string) (v : V) :
  Js.keys (Js.set k v o)
  = if bool_decide (k ∈ Js.keys o) then Js.keys o
    else (Js.keys o ++ [k])%list.
Proof.
  induction o as [|[k' v'] o IH].
  - by simpl.
  - cbn [Js.set]. destruct (String.eqb k' k) eqn:E.
    + apply String.eqb_eq in E as ->. cbn [Js.keys map fst].
      by rewrite bool_decide_eq_true_2 by apply list_elem_of_here.
    + apply String.eqb_neq in E.
      change (Js.keys ((k', v') :: Js.set k v o))
        with (k' :: Js.keys (Js.set k v o)).
      change (Js.keys ((k', v') :: o)) with (k' :: Js.keys o).
      rewrite IH. clear IH.
      case_bool_decide as Hin; case_bool_decide as Hin'; try done.
      * destruct Hin'. by apply list_elem_of_further.
      * apply elem_of_cons in Hin' as [?|?]; done.
Qed.

Lemma filter_ext_on {A} (P1 P2 : A -> Prop)
    `{!forall x, Decision (P1 x), !forall x, Decision (P2 x)} (l : list A) :
  (forall x, x ∈ l -> P1 x <-> P2 x) -> filter P1 l = filter P2 l.
Proof.
  induction l as [|x l IH]; intros Hext; [done|].
  rewrite !filter_cons.
  rewrite IH by (intros y Hy; apply Hext; by apply list_elem_of_further).
  pose proof (Hext x (list_elem_of_here _ _)) as Hx.
  destruct (decide (P1 x)), (decide (P2 x)); tauto.
Qed.

Lemma keys_spread_filter {V} (a b : Js.Obj V) :
  NoDup (Js.keys b) ->
  Js.keys (Js.spread a b)
  = (Js.keys a
     ++ filter (fun k => k ∉ Js.keys a) (Js.keys b))%list.
Proof.
  unfold Js.spread. revert a.
  induction b as [|[k v] b IH]; intros a Hnd; simpl.
  - by rewrite app_nil_r.
  - simpl in Hnd. apply NoDup_cons in Hnd as [Hk Hnd].
    rewrite (IH _ Hnd), keys_set_cases, filter_cons.
    destruct (decide (k ∈ Js.keys a)) as [Hin|Hout].
    + rewrite bool_decide_eq_true_2 by done.
      by rewrite decide_False by (by intros ?).
    + rewrite bool_decide_eq_false_2 by done. rewrite decide_True by done.
      rewrite <- app_assoc. simpl. f_equal. f_equal.
      apply filter_ext_on. intros x Hx. rewrite elem_of_app.
      rewrite list_elem_of_singleton. split; [tauto|].
      intros Hxa [?| ->]; done.
Qed.

(** [getPackageDependencies] on descriptors whose two maps have no key
    made of decimal digits only (such keys are listed first by
    [Object.keys], whatever their place).  With [--prod] the result is
    [dependencies].  Otherwise a name declared in both maps takes its
    range from [devDependencies], the names of [dependencies] come first
    in the processing order, in their order, and the names declared in
    [devDependencies] only follow, in their order.  A missing map counts
    as empty. *)
Theorem getPackageDependencies_lookup (packageJsonObject : Package)
    (name : string) :
  let deps := default [] (pkg_dependencies packageJsonObject) in
  let dev := default [] (pkg_devDependencies packageJsonObject) in
  NoDup (Js.keys deps) -> NoDup (Js.keys dev) ->
  forallb (fun k => negb (index_like k)) (Js.keys deps ++ Js.keys dev) = true ->
  getPackageDependencies packageJsonObject true = deps
  /\ Js.get (getPackageDependencies packageJsonObject false) name
     = match Js.get dev name with
       | Some range => Some range
       | None => Js.get deps name
       end
  /\ Js.keys (getPackageDependencies packageJsonObject false)
     = (Js.keys deps ++ filter (fun k => k ∉ Js.keys deps) (Js.keys dev))%list.
Proof.
  intros deps dev _ Hdev _. unfold getPackageDependencies. simpl.
  fold deps dev. split; [done|]. split.
  - by rewrite get_spread, (get_rev_NoDup _ _ Hdev).
  - by apply keys_spread_filter.
Qed.

Lemma getPackageDependencies_lookup_witness :
  let manifest :=
    {| pkg_name := "project"; pkg_version := "0.0.0";
       pkg_dependencies := Some [("a", "^1.0.0"); ("b", "^1.0.0")];
       pkg_devDependencies := Some [("b", "^2.0.0"); ("c", "*")] |} in
  Js.get (getPackageDependencies manifest false) "b" = Some "^2.0.0"
  /\ Js.keys (getPackageDependencies manifest false) = ["a"; "b"; "c"].
Proof.
  intros manifest.
  destruct (getPackageDependencies_lookup manifest "b")
    as (_ & Hget & Hkeys).
  - apply (bool_decide_unpack _). vm_compute. exact I.
  - apply (bool_decide_unpack _). vm_compute. exact I.
  - reflexivity.
  - split; [exact Hget|]. rewrite Hkeys. vm_compute. reflexivity.
Defined.

(** ** The census as a sum *)

Lemma getFolderStat_sum (d : dirents) :
  getFolderStat d
  = if any_entry dangling d then None
    else Some {| fileCount := sum_entries followed_count d;
                 totalSize := sum_entries followed_size d |}.
Proof.
  unfold getFolderStat. rewrite forEach_visit_sum.
  - destruct (any_entry dangling d); [done|].
    by rewrite addFolderStat_new_l.
  - apply Forall_forall. intros e _. apply visit_sum.
Qed.

Lemma any_entry_app (f : node -> bool) (d1 d2 : dirents) :
  any_entry f (d1 ++ d2) = any_entry f d1 || any_entry f d2.
Proof.
  induction d1 as [|[name c] d1 IH]; simpl; [done|].
  by rewrite IH, orb_assoc.
Qed.

Lemma sum_entries_app (f : node -> Z) (d1 d2 : dirents) :
  sum_entries f (d1 ++ d2) = sum_entries f d1 + sum_entries f d2.
Proof.
  induction d1 as [|[name c] d1 IH]; simpl; [done|]. rewrite IH. lia.
Qed.

Lemma any_entry_existsb (f : node -> bool) (d : dirents) :
  any_entry f d = existsb f (map snd d).
Proof. induction d as [|[name c] d IH]; simpl; [done|]. by rewrite IH. Qed.

Lemma sum_entries_foldr (f : node -> Z) (d : dirents) :
  sum_entries f d = foldr Z.add 0 (map f (map snd d)).
Proof. induction d as [|[name c] d IH]; simpl; [done|]. by rewrite IH. Qed.

Lemma existsb_perm (f : node -> bool) (l1 l2 : list node) :
  l1 ≡ₚ l2 -> existsb f l1 = existsb f l2.
Proof.
  induction 1 as [|c l1 l2 _ IH|c1 c2 l|l1 l2 l3 _ IH1 _ IH2]; simpl;
    [done|by rewrite IH|by destruct (f c1), (f c2)|congruence].
Qed.

Lemma sum_perm (f : node -> Z) (l1 l2 : list node) :
  l1 ≡ₚ l2 -> foldr Z.add 0 (map f l1) = foldr Z.add 0 (map f l2).
Proof.
  induction 1 as [|c l1 l2 _ IH|c1 c2 l|l1 l2 l3 _ IH1 _ IH2]; simpl;
    [done| | |congruence]; lia.
Qed.

Lemma followed_count_nonneg (n : node) : 0 <= followed_count n.
Proof.
  induction n as [sz json|es IH| | |target IH] using node_induction;
    simpl; try lia.
  induction IH as [|[name c] es Hc _ IHes]; simpl in *; lia.
Qed.

(** The census of a directory is the sum of the censuses of two halves of
    its listing (and fails when either fails), the file count is never
    negative, and an empty directory counts nothing. *)
Theorem getFolderStat_app (d1 d2 : dirents) :
  getFolderStat (d1 ++ d2)
  = match getFolderStat d1, getFolderStat d2 with
    | Some a, Some b => Some (addFolderStat a b)
    | _, _ => None
    end
  /\ (forall stat, getFolderStat d1 = Some stat -> 0 <= fileCount stat)
  /\ getFolderStat [] = Some newFolderStat.
Proof.
  split; [|split; [|done]].
  - rewrite !getFolderStat_sum, any_entry_app, !sum_entries_app.
    destruct (any_entry dangling d1), (any_entry dangling d2); done.
  - intros stat. rewrite getFolderStat_sum.
    destruct (any_entry dangling d1); [done|]. intros [= <-]. simpl.
    pose proof (followed_count_nonneg (Dir d1)) as Hn. by simpl in Hn.
Qed.

(** The census does not depend on the order in which [readdirSync] lists
    the entries, nor on their names. *)
Theorem getFolderStat_order_independent (d1 d2 : dirents) :
  map snd d1 ≡ₚ map snd d2 -> getFolderStat d1 = getFolderStat d2.
Proof.
  intros Hperm.
  rewrite !getFolderStat_sum, !any_entry_existsb, !sum_entries_foldr.
  rewrite (existsb_perm _ _ _ Hperm).
  by rewrite (sum_perm followed_count _ _ Hperm),
    (sum_perm followed_size _ _ Hperm).
Qed.

Lemma getFolderStat_order_independent_witness :
  getFolderStat [("index.js", RegFile 300 None); ("lib", Dir [])]
  = getFolderStat [("src", Dir []); ("main.js", RegFile 300 None)].
Proof.
  apply getFolderStat_order_independent. simpl. apply Permutation_swap.
Defined.

(** ** The metadata cache *)

(** After [getPackage] has returned a document, with caching enabled,
    asking again for the same name returns the same document and leaves
    the state as it is: no fetch is made and nothing is written. *)
Theorem getPackage_second_call_from_cache (w : World) (this : NpmClient)
    (packageName : string) (st st1 : State) (doc : PackageResponse) :
  cacheable this = true ->
  getPackage w this packageName st = (inr doc, st1) ->
  getPackage w this packageName st1 = (inr doc, st1).
Proof.
  intros Hc. unfold getPackage, readPackageInfoCache, writePackageInfoCache,
    downloadPackageInfo, do_fetch, when, set_caches, emit, modify, bind,
    gets, ret, throw.
  rewrite Hc. simpl.
  destruct (caches st !! workingDir this ≫= _) as [cached|] eqn:Hcached;
    simpl.
  - intros [= -> ->]. by rewrite Hcached.
  - destruct (fetch w _) as [response|]; simpl; [|done].
    destruct (ok response); simpl; [|done].
    destruct (body_json (body response)) as [doc'|]; simpl; [|done].
    intros [= -> <-]. simpl. rewrite lookup_insert_eq. simpl.
    by rewrite lookup_insert_eq.
Qed.

Lemma getPackage_second_call_from_cache_witness :
  let w := Scenario.zlib_world in
  let first := getPackage w (npmClient w) "zlib" Scenario.empty_disk in
  getPackage w (npmClient w) "zlib" (snd first)
  = (inr Scenario.zlib_doc, snd first).
Proof.
  apply (getPackage_second_call_from_cache Scenario.zlib_world
           (npmClient Scenario.zlib_world) "zlib" Scenario.empty_disk).
  - reflexivity.
  - vm_compute. reflexivity.
Defined.

(** Without caching every call fetches, and the cache directories are
    never touched, whatever the outcome. *)
Theorem getPackage_uncached_always_fetches (w : World) (this : NpmClient)
    (packageName : string) (st : State) :
  cacheable this = false ->
  let result := getPackage w this packageName st in
  caches (snd result) = caches st
  /\ log (snd result)
     = (log st ++ [EvFetch (registryUrl this +:+ "/" +:+ packageName)])%list.
Proof.
  intros Hc. unfold getPackage, downloadPackageInfo, do_fetch, when, emit,
    modify, bind, gets, ret, throw.
  rewrite Hc. simpl.
  destruct (fetch w _) as [response|]; simpl; [|done].
  destruct (ok response); simpl; [|done].
  by destruct (body_json (body response)).
Qed.

Lemma getPackage_uncached_always_fetches_witness :
  let w := Scenario.zlib_world in
  let this := {| registryUrl := NPM_REGISTRY; workingDir := cwd w;
                 cacheable := false |} in
  let result := getPackage w this "zlib" Scenario.empty_disk in
  caches (snd result) = caches Scenario.empty_disk
  /\ log (snd result) = [EvFetch (NPM_REGISTRY +:+ "/" +:+ "zlib")].
Proof.
  exact (getPackage_uncached_always_fetches Scenario.zlib_world
           {| registryUrl := NPM_REGISTRY; workingDir := cwd Scenario.zlib_world;
              cacheable := false |} "zlib" Scenario.empty_disk eq_refl).
Defined.

(** ** Executable links *)

Lemma symlinkSync_result (target : string * string) (name : string)
    (st : State) :
  symlinkSync target name st
  = match default ∅ (bin st) !! name with
    | Some _ => (inl (SystemError "EEXIST"), st)
    | None =>
        (inr tt,
         {| caches := caches st; nm_exists := true; mods := mods st;
            bin := Some (<[name := target]> (default ∅ (bin st)));
            log := log st |})
    end.
Proof.
  unfold symlinkSync, set_bin, modify, bind, gets, throw. simpl.
  by destruct (default ∅ (bin st) !! name).
Qed.

(** A successful [symlinkAll] leaves every command of the map linked, and
    never drops a link. *)
Lemma symlinkAll_links (key : string) (m : KeyValueType) :
  forall st st1,
    symlinkAll key m st = (inr tt, st1) ->
    (forall name, is_Some (default ∅ (bin st) !! name) ->
                  is_Some (default ∅ (bin st1) !! name))
    /\ (forall name, name ∈ Js.keys m -> is_Some (default ∅ (bin st1) !! name))
    /\ (m <> [] -> is_Some (bin st1))
    /\ mods st1 = mods st /\ caches st1 = caches st /\ log st1 = log st.
Proof.
  induction m as [|[binFile p] m IH]; intros st st1; simpl.
  - unfold ret. intros [= <-]. split; [done|]. split; [|done].
    intros name Hn. by apply elem_of_nil in Hn.
  - unfold bind. rewrite symlinkSync_result.
    destruct (default ∅ (bin st) !! binFile) eqn:Hlink; [done|].
    intros Hrest. apply IH in Hrest as (Hkeep & Hall & _ & Hm & Hc & Hl).
    simpl in *.
    assert (Hnew : is_Some (default ∅ (bin st1) !! binFile)).
    { apply Hkeep. rewrite lookup_insert_eq. by eexists. }
    split; [|split; [|split; [|done]]].
    + intros name Hname. apply Hkeep.
      destruct (decide (binFile = name)) as [->|Hne].
      * rewrite lookup_insert_eq. by eexists.
      * by rewrite lookup_insert_ne.
    + intros name [->|Hname]%elem_of_cons; [done|]. by apply Hall.
    + intros _. destruct (bin st1); [by eexists|].
      simpl in Hnew. rewrite lookup_empty in Hnew. by destruct Hnew.
Qed.

(** [symlinkBinFiles] never touches the modules, the cache or the log. *)
Lemma symlinkBinFiles_frame (version : option VersionResponse) (key : string)
    (st : State) :
  let result := symlinkBinFiles version key st in
  mods (snd result) = mods st /\ caches (snd result) = caches st
  /\ log (snd result) = log st.
Proof.
  unfold symlinkBinFiles. destruct version as [version|]; [|done].
  destruct (bin_truthy (vr_bin version)); [|done].
  unfold when, bind, gets, set_bin, modify, ret. simpl.
  assert (Hall : forall m s,
            mods (snd (symlinkAll key m s)) = mods s
            /\ caches (snd (symlinkAll key m s)) = caches s
            /\ log (snd (symlinkAll key m s)) = log s).
  { induction m as [|[binFile p] m IH]; intros s; simpl; [done|].
    unfold bind. rewrite symlinkSync_result.
    destruct (default ∅ (bin s) !! binFile); [done|].
    destruct (IH {| caches := caches s; nm_exists := true; mods := mods s;
                    bin := Some (<[binFile:=(key, p)]> (default ∅ (bin s)));
                    log := log s |}) as (-> & -> & ->). done. }
  destruct (bool_decide (bin st = None)); simpl;
    destruct (vr_bin version) as [|p|m]; simpl;
    rewrite ?symlinkSync_result; simpl;
    try (match goal with
         | |- context [default ∅ ?b !! ?n] => destruct (default ∅ b !! n)
         end);
    try done;
    match goal with
    | |- context [symlinkAll key ?m ?s] =>
        destruct (Hall m s) as (-> & -> & ->)
    end; done.
Qed.

(** The body of [symlinkBinFiles] for a version that declares executables:
    the links are made in a state where [.bin] exists. *)
Lemma symlinkBinFiles_truthy (version : VersionResponse) (key : string)
    (st : State) :
  bin_truthy (vr_bin version) = true ->
  symlinkBinFiles (Some version) key st
  = match vr_bin version with
    | BinPath p => symlinkSync (key, p) (vr_name version)
    | BinMap m => symlinkAll key m
    | BinAbsent => ret tt
    end (match bin st with
         | Some _ => st
         | None =>
             {| caches := caches st; nm_exists := true; mods := mods st;
                bin := Some ∅; log := log st |}
         end).
Proof.
  intros Ht. unfold symlinkBinFiles, when, bind, gets, set_bin, modify, ret.
  rewrite Ht. simpl. by destruct (bin st).
Qed.

(** [symlinkBinFiles] is not repeatable.  A version without executables
    leaves everything as it is; for a version that declares executables, a
    call that succeeded is followed by a call that throws [EEXIST] on the
    first link and changes nothing: an existing link is never replaced. *)
Theorem symlinkBinFiles_not_repeatable (version : VersionResponse)
    (key : string) (st st1 : State) :
  (bin_truthy (vr_bin version) = false ->
   symlinkBinFiles (Some version) key st = (inr tt, st))
  /\ (bin_truthy (vr_bin version) = true ->
      vr_bin version <> BinMap [] ->
      symlinkBinFiles (Some version) key st = (inr tt, st1) ->
      symlinkBinFiles (Some version) key st1 = (inl (SystemError "EEXIST"), st1)).
Proof.
  split.
  - intros Ht. unfold symlinkBinFiles, when. by rewrite Ht.
  - intros Ht Hne. rewrite !symlinkBinFiles_truthy by done.
    set (st0 := match bin st with Some _ => st | None => _ end).
    destruct (vr_bin version) as [|p|m] eqn:Hbin; [done| |].
    + (* a single path, linked under the package name *)
      rewrite symlinkSync_result.
      destruct (default ∅ (bin st0) !! vr_name version); [done|].
      intros [= <-]. simpl. rewrite symlinkSync_result. simpl.
      by rewrite lookup_insert_eq.
    + (* a map of commands *)
      destruct m as [|[binFile p] m]; [done|]. intros Hfirst.
      apply (symlinkAll_links key ((binFile, p) :: m)) in Hfirst
        as (_ & Hall & Hsome & _).
      destruct Hsome as [b Hb]; [done|].
      destruct (Hall binFile) as [target Htarget];
        [simpl; apply list_elem_of_here|].
      rewrite Hb in *. simpl. unfold bind.
      rewrite symlinkSync_result, Hb. simpl.
      simpl in Htarget. by rewrite Htarget.
Qed.

Lemma symlinkBinFiles_not_repeatable_witness :
  let version :=
    {| vr_name := "tool"; vr_version := "1.0.0"; vr_dependencies := None;
       dist := {| shasum := ""; tarball := ""; dist_fileCount := None;
                  dist_unpackedSize := None |};
       vr_bin := BinMap [("tool", "./cli.js"); ("tool-dev", "./dev.js")] |} in
  let first := symlinkBinFiles (Some version) "tool" Scenario.empty_disk in
  symlinkBinFiles (Some version) "tool" (snd first)
  = (inl (SystemError "EEXIST"), snd first).
Proof.
  intros version first.
  apply (proj2 (symlinkBinFiles_not_repeatable version "tool"
                  Scenario.empty_disk (snd first))).
  - reflexivity.
  - discriminate.
  - vm_compute. reflexivity.
Defined.

(** ** Unpacking and reinstalling *)


Lemma extract_entry_dir (name : string) (members old : dirents) :
  extract_entry name (Dir members) old
  = Js.set name
      (Dir (extract members
              match Js.get old name with
              | Some (Dir es) => es
              | _ => []
              end)) old.
Proof.
  simpl. unfold upsert, extract.
  match goal with
  | |- context [(fix go (ms sub : dirents) {struct ms} : dirents := _)] =>
      set (go := (fix go (ms sub : dirents) {struct ms} : dirents := _))
  end.
  assert (Hgo : forall ms sub,
            go ms sub
            = fold_left (fun acc e => extract_entry (fst e) (snd e) acc) ms sub).
  { induction ms as [|[nm c] ms IH]; intros sub; simpl; [done|]. apply IH. }
  destruct (Js.get old name) as [[| | |]|]; by rewrite Hgo.
Qed.

Lemma extract_cons (name : string) (c : node) (members old : dirents) :
  extract ((name, c) :: members) old
  = extract members (extract_entry name c old).
Proof. done. Qed.




Lemma rmSync_entry_inr (name : string) (d d' : dirents) :
  rmSync_entry name d = inr d' -> d' = remove_entry name d.
Proof.
  unfold rmSync_entry. destruct (Js.get d name) as [[| | |]|]; congruence.
Qed.

(** What a successful [downloadModule] has done. *)
Lemma downloadModule_inr (w : World) (version : VersionResponse)
    (key : string) (st st' : State) :
  let fileUrl := tarball (dist version) in
  let fileName := basename fileUrl in
  downloadModule w (Some version) key st = (inr tt, st') ->
  exists res members,
    fetch w fileUrl = Some res
    /\ body_sha1 (body res) = shasum (dist version)
    /\ body_untar (body res) = Some members
    /\ mods st'
       = <[key := remove_entry fileName
                    (extract members
                       (remove_entry fileName (dir_of st key)
                        ++ [(fileName, RegFile (body_size (body res)) None)]))]>
           (mods st)
    /\ caches st' = caches st
    /\ bin st' = bin st
    /\ nm_exists st' = true
    /\ log st' = (log st ++ [EvDownloadModule key; EvFetch fileUrl;
                             EvUnpack key])%list.
Proof.
  intros fileUrl fileName.
  unfold downloadModule. fold fileUrl fileName.
  unfold do_fetch, dir_of.
  unfold bind, gets, ret, throw, modify, emit, when, put_dir, get_dir,
    set_mods, lift_fs, bind, gets, ret, modify.
  destruct (fetch w fileUrl) as [res|] eqn:Hfetch; cycle 1.
  { intros Hd. exfalso. revert Hd.
    destruct (mods st !! key) as [d|] eqn:Hkey;
      repeat first [rewrite Hkey | rewrite lookup_insert_eq | progress simpl
                   | case_match]; done. }
  destruct (String.eqb (body_sha1 (body res)) (shasum (dist version)))
    eqn:Hsha; cycle 1.
  { intros Hd. exfalso. revert Hd.
    destruct (mods st !! key) as [d|] eqn:Hkey;
      repeat first [rewrite Hkey | rewrite lookup_insert_eq | progress simpl
                   | case_match]; done. }
  apply String.eqb_eq in Hsha.
  destruct (body_untar (body res)) as [members|] eqn:Huntar; cycle 1.
  { intros Hd. exfalso. revert Hd.
    destruct (mods st !! key) as [d|] eqn:Hkey;
      repeat first [rewrite Hkey | rewrite lookup_insert_eq | progress simpl
                   | case_match]; done. }
  intros Hd. exists res, members. split; [done|]. split; [done|].
  split; [done|]. revert Hd.
  destruct (mods st !! key) as [d|] eqn:Hkey;
    repeat first [rewrite Hkey | rewrite lookup_insert_eq | progress simpl].
  - destruct (existsSync_entry d fileName) eqn:Hex;
      repeat first [rewrite Hkey | rewrite lookup_insert_eq | progress simpl].
    + destruct (rmSync_entry fileName d) as [e|d1] eqn:Hrm; simpl; [done|].
      apply rmSync_entry_inr in Hrm as ->.
      repeat first [rewrite lookup_insert_eq | rewrite remove_entry_get
                   | progress simpl].
      destruct (rmSync_entry fileName _) as [e|d3] eqn:Hrm; simpl; [done|].
      apply rmSync_entry_inr in Hrm as ->.
      intros [= <-]. simpl. rewrite !insert_insert_eq.
      by rewrite <- !app_assoc.
    + destruct (Js.get d fileName) eqn:Hget; simpl; [done|].
      repeat first [rewrite lookup_insert_eq | progress simpl].
      destruct (rmSync_entry fileName _) as [e|d3] eqn:Hrm; simpl; [done|].
      apply rmSync_entry_inr in Hrm as ->.
      intros [= <-]. simpl. rewrite !insert_insert_eq.
      rewrite (remove_entry_absent _ _ Hget). by rewrite <- !app_assoc.
  - destruct (rmSync_entry fileName _) as [e|d3] eqn:Hrm; simpl; [done|].
    apply rmSync_entry_inr in Hrm as ->.
    intros [= <-]. simpl. rewrite !insert_insert_eq.
    by rewrite <- !app_assoc.
Qed.



Lemma remove_entry_get_ne (name other : string) (d : dirents) :
  name <> other -> Js.get (remove_entry name d) other = Js.get d other.
Proof.
  intros Hne. unfold remove_entry.
  induction d as [|[k n] d IH]; [done|].
  rewrite filter_cons. simpl. case_decide as Hk; simpl.
  - by rewrite IH.
  - subst k. apply String.eqb_neq in Hne. by rewrite Hne.
Qed.












(** ** One dependency, step by step *)

Lemma bind_inr {A B} (c : M A) (k : A -> M B) (st st1 : State) (a : A) :
  c st = (inr a, st1) -> bind c k st = k a st1.
Proof. unfold bind. by intros ->. Qed.

Lemma bind_inl {A B} (c : M A) (k : A -> M B) (st st1 : State) (e : error) :
  c st = (inl e, st1) -> bind c k st = (inl e, st1).
Proof. unfold bind. by intros ->. Qed.

Lemma readJson_statSync (n : node) (pkg : Package) :
  readJson n = inr pkg -> is_Some (statSync n).
Proof.
  induction n as [sz json|es IH| | |target IH] using node_induction;
    simpl; try done; by eexists.
Qed.

Lemma installed_descriptor (key : string) (st : State) (d : dirents)
    (n : node) (pkg : Package) :
  mods st !! key = Some d ->
  Js.get d PACKAGE_FILE_NAME = Some n ->
  readJson n = inr pkg ->
  existsSync_packageJson key st = (inr true, st)
  /\ readPackageJson key st = (inr pkg, st).
Proof.
  intros Hd Hn Hpkg.
  unfold existsSync_packageJson, readPackageJson, get_dir, lift_fs, bind,
    gets, ret, existsSync_entry.
  rewrite Hd, Hn, Hpkg. simpl. split; [|done].
  by rewrite bool_decide_eq_true_2 by by eapply readJson_statSync.
Qed.





(** ** Termination on finite requirement graphs *)

Lemma get_In {V} (o : Js.Obj V) (k : string) (v : V) :
  Js.get o k = Some v -> In (k, v) o.
Proof.
  induction o as [|[k' v'] o IH]; simpl; [done|].
  destruct (String.eqb k' k) eqn:E.
  - apply String.eqb_eq in E as ->. intros [= ->]. by left.
  - intros Hg. right. by apply IH.
Qed.

Lemma deps_ok_get (N : list string) (deps : KeyValueType) (k r : string) :
  deps_ok N deps = true -> Js.get deps k = Some r ->
  k ∈ N /\ Js.truthy (Some (extractVersionFromVersion r)) = true.
Proof.
  unfold deps_ok. rewrite forallb_forall. intros Hall Hg.
  apply get_In, Hall in Hg. unfold requirement_ok in Hg. simpl in Hg.
  apply andb_true_iff in Hg as [Hk Hr]. by apply bool_decide_eq_true in Hk.
Qed.

Lemma deps_ok_set (N : list string) (deps : KeyValueType) (k r : string) :
  requirement_ok N (k, r) = true -> deps_ok N deps = true ->
  deps_ok N (Js.set k r deps) = true.
Proof.
  intros Hkr. unfold deps_ok.
  induction deps as [|[k' r'] deps IH]; simpl.
  - by rewrite Hkr.
  - intros [Hk' Hdeps]%andb_true_iff.
    destruct (String.eqb k' k); simpl.
    + by rewrite Hkr, Hdeps.
    + by rewrite Hk', IH.
Qed.

Lemma deps_ok_spread (N : list string) (a b : KeyValueType) :
  deps_ok N a = true -> deps_ok N b = true -> deps_ok N (Js.spread a b) = true.
Proof.
  unfold Js.spread. revert a.
  induction b as [|[k r] b IH]; intros a Ha Hb; simpl; [done|].
  simpl in Hb. apply andb_true_iff in Hb as [Hkr Hb].
  apply IH; [|done]. by apply deps_ok_set.
Qed.

Lemma bind_inr_inv {A B} (c : M A) (k : A -> M B) (st st' : State) (b : B) :
  bind c k st = (inr b, st') ->
  exists a st1, c st = (inr a, st1) /\ k a st1 = (inr b, st').
Proof.
  unfold bind. destruct (c st) as [[e|a] st1]; [done|]. by exists a, st1.
Qed.

Lemma getPackage_ok (N : list string) (w : World) (packageName : string)
    (st st1 : State) (doc : PackageResponse) :
  world_ok N w -> cache_ok N w st ->
  getPackage w (npmClient w) packageName st = (inr doc, st1) ->
  document_ok N doc = true /\ cache_ok N w st1 /\ mods st1 = mods st.
Proof.
  intros Hw Hc Hget.
  split; [|split; [|by eapply getPackage_mods]]; revert Hget;
    unfold getPackage, readPackageInfoCache, writePackageInfoCache,
      downloadPackageInfo, do_fetch, when, set_caches, emit, modify, bind,
      gets, ret, throw; simpl;
    destruct (caches st !! cwd w) as [c|] eqn:Hcache; simpl.
  - destruct (c !! packageName) as [cached|] eqn:Hcached; simpl.
    + intros [= <- _]. by eapply Hc.
    + destruct (fetch w _) as [r|] eqn:Hf; simpl; [|done].
      destruct (ok r); simpl; [|done].
      destruct (body_json (body r)) as [doc'|] eqn:Hj; simpl; [|done].
      intros [= <- _]. apply Hw in Hf. unfold response_ok in Hf.
      rewrite Hj in Hf. by apply andb_true_iff in Hf as [Hf _].
  - destruct (fetch w _) as [r|] eqn:Hf; simpl; [|done].
    destruct (ok r); simpl; [|done].
    destruct (body_json (body r)) as [doc'|] eqn:Hj; simpl; [|done].
    intros [= <- _]. apply Hw in Hf. unfold response_ok in Hf.
    rewrite Hj in Hf. by apply andb_true_iff in Hf as [Hf _].
  - destruct (c !! packageName) as [cached|] eqn:Hcached; simpl.
    + by intros [= _ <-].
    + destruct (fetch w _) as [r|] eqn:Hf; simpl; [|done].
      destruct (ok r); simpl; [|done].
      destruct (body_json (body r)) as [doc'|] eqn:Hj; simpl; [|done].
      intros [= <- <-]. apply Hw in Hf. unfold response_ok in Hf.
      rewrite Hj in Hf. apply andb_true_iff in Hf as [Hf _].
      intros c' name doc''. simpl. rewrite lookup_insert_eq.
      intros [= <-]. destruct (decide (packageName = name)) as [->|Hne].
      * rewrite lookup_insert_eq. by intros [= <-].
      * rewrite lookup_insert_ne, Hcache by done. intros Hn. by eapply Hc.
  - destruct (fetch w _) as [r|] eqn:Hf; simpl; [|done].
    destruct (ok r); simpl; [|done].
    destruct (body_json (body r)) as [doc'|] eqn:Hj; simpl; [|done].
    intros [= <- <-]. apply Hw in Hf. unfold response_ok in Hf.
    rewrite Hj in Hf. apply andb_true_iff in Hf as [Hf _].
    intros c' name doc''. simpl. rewrite lookup_insert_eq.
    intros [= <-]. destruct (decide (packageName = name)) as [->|Hne].
    + rewrite lookup_insert_eq. by intros [= <-].
    + rewrite lookup_insert_ne, Hcache by done. simpl. by rewrite lookup_empty.
Qed.

Lemma readPackageJson_ok (N : list string) (key : string) (st st1 : State)
    (pkg : Package) :
  disk_ok N st ->
  readPackageJson key st = (inr pkg, st1) ->
  st1 = st /\ deps_ok N (default [] (pkg_dependencies pkg)) = true.
Proof.
  intros Hdisk. unfold readPackageJson, get_dir, lift_fs, bind, gets, ret,
    throw.
  destruct (mods st !! key) as [d|] eqn:Hd; simpl; [|done].
  destruct (Js.get d PACKAGE_FILE_NAME) as [n|] eqn:Hn; simpl; [|done].
  destruct (readJson n) as [e|pkg'] eqn:Hread; simpl; [done|].
  intros [= <- <-]. split; [done|].
  apply Hdisk in Hd. unfold dir_ok in Hd. rewrite Hn in Hd.
  unfold descriptor_ok in Hd. by rewrite Hread in Hd.
Qed.

Lemma isModuleValid_state (version : option VersionResponse) (key : string)
    (st : State) :
  snd (isModuleValid version key st) = st.
Proof.
  unfold isModuleValid, get_dir, bind, gets, ret, throw.
  repeat (case_match; simplify_eq/=); done.
Qed.

Lemma existsSync_packageJson_state (key : string) (st : State) :
  exists b, existsSync_packageJson key st = (inr b, st).
Proof. unfold existsSync_packageJson, bind, gets, ret. by eexists. Qed.

Lemma get_remove_entry_Some (name other : string) (d : dirents) (n : node) :
  Js.get (remove_entry name d) other = Some n -> Js.get d other = Some n.
Proof.
  destruct (decide (name = other)) as [->|Hne].
  - by rewrite remove_entry_get.
  - by rewrite remove_entry_get_ne.
Qed.

Lemma extract_get_cases (name : string) (members : dirents) :
  forall d n,
    Js.get (extract members d) name = Some n ->
    Js.get d name = Some n \/ In (name, n) members \/ is_dir n = true.
Proof.
  induction members as [|[nm c] members IH]; intros d n; [by left|].
  rewrite extract_cons. intros [Hd|[Hin|Hdir]]%IH.
  - destruct (decide (nm = name)) as [->|Hne].
    + destruct (is_dir c) eqn:Hc.
      * destruct c; try done. rewrite extract_entry_dir, get_set_eq in Hd.
        injection Hd as <-. by right; right.
      * rewrite extract_entry_get_file in Hd by done.
        injection Hd as <-. right. left. by left.
    + rewrite extract_entry_get_ne in Hd by done. by left.
  - right. left. by right.
  - by right; right.
Qed.

Lemma descriptor_ok_dir (N : list string) (n : node) :
  is_dir n = true -> descriptor_ok N n = true.
Proof. by destruct n. Qed.

Lemma downloadModule_ok (N : list string) (w : World)
    (version : option VersionResponse) (key : string) (st st' : State) :
  world_ok N w -> disk_ok N st ->
  downloadModule w version key st = (inr tt, st') ->
  disk_ok N st' /\ caches st' = caches st.
Proof.
  intros Hw Hdisk Hok. destruct version as [version|]; [|done].
  apply downloadModule_inr in Hok
    as (res & members & Hf & _ & Hm & Hmods & Hc & _).
  split; [|done]. intros k d. rewrite Hmods.
  destruct (decide (key = k)) as [<-|Hne]; cycle 1.
  { rewrite lookup_insert_ne by done. apply Hdisk. }
  rewrite lookup_insert_eq. intros [= <-]. unfold dir_ok.
  destruct (Js.get _ PACKAGE_FILE_NAME) as [n|] eqn:Hn; [|done].
  apply get_remove_entry_Some, extract_get_cases in Hn as [Hold|[Hin|Hdir]].
  - rewrite get_app in Hold.
    destruct (Js.get (remove_entry _ _) PACKAGE_FILE_NAME) as [n'|] eqn:Hn'.
    + injection Hold as ->. apply get_remove_entry_Some in Hn'.
      unfold dir_of in Hn'.
      destruct (mods st !! key) as [d0|] eqn:Hd0; [|done].
      simpl in Hn'. apply Hdisk in Hd0. unfold dir_ok in Hd0.
      by rewrite Hn' in Hd0.
    + simpl in Hold. destruct (String.eqb _ _); [|done]. by injection Hold as <-.
  - apply Hw in Hf. unfold response_ok in Hf. rewrite Hm in Hf.
    apply andb_true_iff in Hf as [_ Hf]. rewrite forallb_forall in Hf.
    apply Hf in Hin. cbn [fst snd] in Hin.
    by rewrite String.eqb_refl in Hin.
  - by apply descriptor_ok_dir.
Qed.

Lemma redownloadModule_ok (N : list string) (w : World)
    (version : option VersionResponse) (key : string) (st st' : State) :
  world_ok N w -> disk_ok N st ->
  redownloadModule w version key st = (inr tt, st') ->
  disk_ok N st' /\ caches st' = caches st.
Proof.
  intros Hw Hdisk. unfold redownloadModule.
  unfold bind at 1, emit at 1, modify at 1.
  destruct version as [version|]; [|done].
  unfold bind at 1, gets at 1. unfold bind at 1, set_mods at 1, modify at 1.
  intros Hok. apply (downloadModule_ok N) in Hok; [done|done|].
  intros k d. simpl. destruct (decide (key = k)) as [<-|Hne].
  - by rewrite lookup_delete_eq.
  - rewrite lookup_delete_ne by done. apply Hdisk.
Qed.

Lemma disk_ok_eq (N : list string) (st st' : State) :
  mods st' = mods st -> disk_ok N st -> disk_ok N st'.
Proof. unfold disk_ok. by intros ->. Qed.

Lemma cache_ok_eq (N : list string) (w : World) (st st' : State) :
  caches st' = caches st -> cache_ok N w st -> cache_ok N w st'.
Proof. unfold cache_ok. by intros ->. Qed.

Lemma symlinkBinFiles_ok (N : list string) (w : World)
    (version : option VersionResponse) (key : string) (st st' : State)
    (r : error + unit) :
  symlinkBinFiles version key st = (r, st') ->
  cache_ok N w st -> disk_ok N st -> cache_ok N w st' /\ disk_ok N st'.
Proof.
  intros Hs Hc Hd.
  destruct (symlinkBinFiles_frame version key st) as (Hm & Hca & _).
  rewrite Hs in Hm, Hca. simpl in Hm, Hca.
  split; [by eapply cache_ok_eq|by eapply disk_ok_eq].
Qed.

Lemma document_ok_get (N : list string) (doc : PackageResponse)
    (k : option string) :
  document_ok N doc = true ->
  deps_ok N (default [] (Js.get_nullable (versions doc) k ≫= vr_dependencies))
  = true.
Proof.
  unfold document_ok, Js.get_nullable. rewrite forallb_forall. intros Hall.
  destruct (Js.get (versions doc) (default "null" k)) as [record|] eqn:Hrec;
    [|done].
  apply get_In, Hall in Hrec. done.
Qed.

Lemma deps_ok_spread_opt (N : list string) (a : KeyValueType)
    (b : option KeyValueType) :
  deps_ok N a = true -> deps_ok N (default [] b) = true ->
  deps_ok N (Js.spread_opt a b) = true.
Proof. destruct b; simpl; [apply deps_ok_spread|done]. Qed.

(** One iteration keeps the disk and the cache in order, returns
    requirements in order, and leaves the name with a truthy ledger entry;
    a name that was already recorded is skipped without any change. *)
Lemma installDependency_ok `{S : SemverLib} (N : list string) (w : World)
    (L : KeyValueType) (key : string) (P next P' next' : KeyValueType)
    (st st' : State) :
  world_ok N w -> cache_ok N w st -> disk_ok N st ->
  deps_ok N L = true -> key ∈ Js.keys L -> deps_ok N next = true ->
  installDependency w L key (P, next) st = (inr (P', next'), st') ->
  cache_ok N w st' /\ disk_ok N st' /\ deps_ok N next' = true
  /\ Js.truthy (Js.get P' key) = true
  /\ (forall k, Js.truthy (Js.get P k) = true ->
                Js.truthy (Js.get P' k) = true)
  /\ (Js.truthy (Js.get P key) = true -> next' = next /\ st' = st).
Proof.
  intros Hw Hc Hd HL Hkey Hnext. unfold installDependency.
  destruct (Js.truthy (Js.get P key)) eqn:Hledger.
  { unfold ret. intros [= <- <- <-]. done. }
  apply keys_get in Hkey as [r Hr].
  destruct (deps_ok_get N L key r HL Hr) as [HkN Hrange].
  rewrite Hr. simpl default.
  set (range := extractVersionFromVersion r) in *.
  intros Hrun.
  apply bind_inr_inv in Hrun as (doc & st1 & Hdoc & Hrun).
  destruct (getPackage_ok N w _ st st1 doc Hw Hc Hdoc) as (Hdocok & Hc1 & Hm1).
  pose proof (disk_ok_eq N st st1 Hm1 Hd) as Hd1.
  apply bind_inr_inv in Hrun as (installed & st2 & Hex & Hrun).
  destruct (existsSync_packageJson_state key st1) as [b Hb].
  rewrite Hb in Hex. injection Hex as -> <-.
  apply bind_inr_inv in Hrun as (merged & st3 & Hbody & Hrun).
  unfold ret in Hrun. injection Hrun as <- <- <-.
  assert (Hgoal : cache_ok N w st3 /\ disk_ok N st3 /\ deps_ok N merged = true).
  { destruct installed.
    - apply bind_inr_inv in Hbody as (pkg & st4 & Hread & Hbody).
      destruct (readPackageJson_ok N key st1 st4 pkg Hd1 Hread) as [-> Hpkg].
      apply bind_inr_inv in Hbody as (u & st5 & Hbranch & Hbody).
      unfold ret in Hbody. injection Hbody as <- <-.
      split; [|split; [|by apply deps_ok_spread_opt]].
      + destruct (satisfies (pkg_version pkg) range).
        * apply bind_inr_inv in Hbranch as (valid & st6 & Hv & Hbranch).
          pose proof (isModuleValid_state
                        (Js.get (versions doc) (pkg_version pkg)) key st1)
            as Hvs.
          rewrite Hv in Hvs. simpl in Hvs. subst st6.
          apply bind_inr_inv in Hbranch as ([] & st7 & Hre & Hlink).
          destruct valid; simpl in Hre.
          -- unfold ret in Hre. injection Hre as <-.
             by destruct (symlinkBinFiles_ok N w _ _ _ _ _ Hlink Hc1 Hd1).
          -- destruct (redownloadModule_ok N w _ _ _ _ Hw Hd1 Hre)
               as [Hd7 Hc7].
             pose proof (cache_ok_eq N w st1 st7 Hc7 Hc1) as Hc7'.
             by destruct (symlinkBinFiles_ok N w _ _ _ _ _ Hlink Hc7' Hd7).
        * apply bind_inr_inv in Hbranch as ([] & st7 & Hre & Hlink).
          destruct (redownloadModule_ok N w _ _ _ _ Hw Hd1 Hre) as [Hd7 Hc7].
          pose proof (cache_ok_eq N w st1 st7 Hc7 Hc1) as Hc7'.
          by destruct (symlinkBinFiles_ok N w _ _ _ _ _ Hlink Hc7' Hd7).
      + destruct (satisfies (pkg_version pkg) range).
        * apply bind_inr_inv in Hbranch as (valid & st6 & Hv & Hbranch).
          pose proof (isModuleValid_state
                        (Js.get (versions doc) (pkg_version pkg)) key st1)
            as Hvs.
          rewrite Hv in Hvs. simpl in Hvs. subst st6.
          apply bind_inr_inv in Hbranch as ([] & st7 & Hre & Hlink).
          destruct valid; simpl in Hre.
          -- unfold ret in Hre. injection Hre as <-.
             by destruct (symlinkBinFiles_ok N w _ _ _ _ _ Hlink Hc1 Hd1).
          -- destruct (redownloadModule_ok N w _ _ _ _ Hw Hd1 Hre)
               as [Hd7 Hc7].
             pose proof (cache_ok_eq N w st1 st7 Hc7 Hc1) as Hc7'.
             by destruct (symlinkBinFiles_ok N w _ _ _ _ _ Hlink Hc7' Hd7).
        * apply bind_inr_inv in Hbranch as ([] & st7 & Hre & Hlink).
          destruct (redownloadModule_ok N w _ _ _ _ Hw Hd1 Hre) as [Hd7 Hc7].
          pose proof (cache_ok_eq N w st1 st7 Hc7 Hc1) as Hc7'.
          by destruct (symlinkBinFiles_ok N w _ _ _ _ _ Hlink Hc7' Hd7).
    - apply bind_inr_inv in Hbody as ([] & st4 & Hdl & Hbody).
      apply bind_inr_inv in Hbody as ([] & st5 & Hlink & Hbody).
      unfold ret in Hbody. injection Hbody as <- <-.
      destruct (downloadModule_ok N w _ _ _ _ Hw Hd1 Hdl) as [Hd4 Hc4].
      pose proof (cache_ok_eq N w st1 st4 Hc4 Hc1) as Hc4'.
      destruct (symlinkBinFiles_ok N w _ _ _ _ _ Hlink Hc4' Hd4) as [? ?].
      split; [done|]. split; [done|].
      apply deps_ok_spread; [done|]. by apply document_ok_get. }
  destruct Hgoal as (? & ? & ?).
  split; [done|]. split; [done|]. split; [done|].
  split; [by rewrite get_set_eq|]. split; [|done].
  intros k Hk. rewrite get_set. by destruct (String.eqb key k).
Qed.

Lemma forKeys_ok `{S : SemverLib} (N : list string) (w : World)
    (L : KeyValueType) (keys : list string) :
  world_ok N w -> deps_ok N L = true ->
  (forall k, k ∈ keys -> k ∈ Js.keys L) ->
  forall (P next P' next' : KeyValueType) (st st' : State),
    cache_ok N w st -> disk_ok N st -> deps_ok N next = true ->
    forKeys w L keys (P, next) st = (inr (P', next'), st') ->
    cache_ok N w st' /\ disk_ok N st' /\ deps_ok N next' = true
    /\ (forall k, k ∈ keys -> Js.truthy (Js.get P' k) = true)
    /\ (forall k, Js.truthy (Js.get P k) = true ->
                  Js.truthy (Js.get P' k) = true)
    /\ ((forall k, k ∈ keys -> Js.truthy (Js.get P k) = true) ->
        next' = next /\ st' = st).
Proof.
  intros Hw HL. induction keys as [|key keys IH];
    intros Hkeys P next P' next' st st' Hc Hd Hnext; simpl.
  - unfold ret. intros [= <- <- <-]. repeat split; try done.
    intros k Hk. by apply elem_of_nil in Hk.
  - intros Hrun.
    apply bind_inr_inv in Hrun as ([P1 next1] & st1 & Hone & Hrest).
    destruct (installDependency_ok N w L key P next P1 next1 st st1)
      as (Hc1 & Hd1 & Hn1 & Hkey1 & Hmono1 & Hskip1); try done.
    { apply Hkeys, list_elem_of_here. }
    destruct (IH (fun k Hk => Hkeys k (list_elem_of_further _ _ _ Hk))
                P1 next1 P' next' st1 st' Hc1 Hd1 Hn1 Hrest)
      as (Hc' & Hd' & Hn' & Hall & Hmono & Hskip).
    split; [done|]. split; [done|]. split; [done|].
    split; [|split].
    + intros k [->|Hk]%elem_of_cons; [by apply Hmono|by apply Hall].
    + intros k Hk. by apply Hmono, Hmono1.
    + intros Hdone.
      destruct (Hskip1 (Hdone key (list_elem_of_here _ _))) as [-> ->].
      apply Hskip. intros k Hk. apply Hmono1, Hdone.
      by apply list_elem_of_further.
Qed.

Lemma pending_cons (k : string) (N : list string) (P : KeyValueType) :
  pending (k :: N) P
  = ((if Js.truthy (Js.get P k) then 0 else 1) + pending N P)%nat.
Proof.
  unfold pending. rewrite filter_cons.
  destruct (Js.truthy (Js.get P k)).
  - by rewrite decide_False by done.
  - by rewrite decide_True by done.
Qed.

Lemma pending_le (N : list string) (P P' : KeyValueType) :
  (forall k, Js.truthy (Js.get P k) = true -> Js.truthy (Js.get P' k) = true) ->
  (pending N P' <= pending N P)%nat.
Proof.
  intros Hmono. induction N as [|k N IH]; [done|].
  rewrite !pending_cons.
  destruct (Js.truthy (Js.get P k)) eqn:HP.
  - rewrite (Hmono k HP). lia.
  - destruct (Js.truthy (Js.get P' k)); lia.
Qed.

Lemma pending_lt (N : list string) (P P' : KeyValueType) (k : string) :
  (forall k, Js.truthy (Js.get P k) = true -> Js.truthy (Js.get P' k) = true) ->
  k ∈ N -> Js.truthy (Js.get P k) = false -> Js.truthy (Js.get P' k) = true ->
  (pending N P' < pending N P)%nat.
Proof.
  intros Hmono Hk HP HP'. induction Hk as [k N|k k' N Hk IH].
  - pose proof (pending_le N P P' Hmono) as Hle.
    rewrite !pending_cons, HP, HP'. lia.
  - specialize (IH HP HP'). rewrite !pending_cons.
    destruct (Js.truthy (Js.get P k')) eqn:HPk'.
    + rewrite (Hmono k' HPk'). lia.
    + destruct (Js.truthy (Js.get P' k')); lia.
Qed.

Lemma pending_bound (N : list string) (P : KeyValueType) :
  (pending N P <= length N)%nat.
Proof. unfold pending. apply length_filter. Qed.

Lemma forallb_false_witness (f : string -> bool) (l : list string) :
  forallb f l = false -> exists k, k ∈ l /\ f k = false.
Proof.
  induction l as [|k l IH]; simpl; [done|].
  destruct (f k) eqn:Hk; simpl.
  - intros (k' & Hk' & Hf)%IH. exists k'. split; [by right|done].
  - intros _. exists k. split; [by left|done].
Qed.

Lemma installDependencies_ok `{S : SemverLib} (N : list string) (w : World)
    (L P P' next' : KeyValueType) (st st' : State) :
  world_ok N w -> deps_ok N L = true ->
  cache_ok N w st -> disk_ok N st ->
  installDependencies w P L st = (inr (P', next'), st') ->
  cache_ok N w st' /\ disk_ok N st' /\ deps_ok N next' = true
  /\ (forall k, Js.truthy (Js.get P k) = true ->
                Js.truthy (Js.get P' k) = true)
  /\ (next' <> [] ->
      exists k, k ∈ N /\ Js.truthy (Js.get P k) = false
                /\ Js.truthy (Js.get P' k) = true).
Proof.
  intros Hw HL Hc Hd. unfold installDependencies.
  unfold bind at 1, ensure_node_modules at 1, modify at 1.
  set (st0 := {| caches := caches st; nm_exists := true; mods := mods st;
                 bin := bin st; log := log st |}).
  intros Hrun.
  destruct (forKeys_ok N w L (Js.keys L) Hw HL (fun k Hk => Hk)
              P [] P' next' st0 st'
              (cache_ok_eq N w st st0 eq_refl Hc)
              (disk_ok_eq N st st0 eq_refl Hd) eq_refl Hrun)
    as (Hc' & Hd' & Hn' & Hall & Hmono & Hskip).
  split; [done|]. split; [done|]. split; [done|]. split; [done|].
  intros Hne.
  destruct (forallb (fun k => Js.truthy (Js.get P k)) (Js.keys L)) eqn:Hdone.
  - rewrite forallb_forall in Hdone. destruct Hskip as [-> _]; [|done].
    intros k Hk. by apply Hdone, list_elem_of_In.
  - apply forallb_false_witness in Hdone as (k & Hk & HP).
    exists k. split; [|split; [done|by apply Hall]].
    apply keys_get in Hk as [r Hr]. by destruct (deps_ok_get N L k r HL Hr).
Qed.

Lemma doWhile_terminates `{S : SemverLib} (N : list string) (w : World) :
  world_ok N w ->
  forall (fuel : nat) (P L : KeyValueType) (st : State),
    cache_ok N w st -> disk_ok N st -> deps_ok N L = true ->
    (pending N P < fuel)%nat ->
    exists outcome, doWhile w fuel P L st = Some outcome.
Proof.
  intros Hw. induction fuel as [|fuel IH]; intros P L st Hc Hd HL Hfuel;
    [lia|].
  rewrite doWhile_unfold.
  destruct (installDependencies w P L st) as [[e|[P' next']] st'] eqn:Hrun;
    [by eexists|].
  destruct (installDependencies_ok N w L P P' next' st st' Hw HL Hc Hd Hrun)
    as (Hc' & Hd' & Hn' & Hmono & Hprogress).
  destruct (0 <? length (Js.keys next'))%nat eqn:Hmore; [|by eexists].
  apply IH; try done.
  destruct Hprogress as (k & HkN & HP & HP').
  { intros ->. done. }
  pose proof (pending_lt N P P' k Hmono HkN HP HP'). lia.
Qed.

Lemma constructor_npmClient (w : World) (st : State) :
  exists st0,
    constructor w (npmClient w) st = (inr tt, st0)
    /\ caches st0 !! cwd w = Some ∅ /\ mods st0 = mods st.
Proof.
  unfold constructor, when, set_caches, modify, bind, gets, ret. simpl.
  destruct (caches st !! cwd w) as [dir|] eqn:Hdir; simpl.
  - rewrite bool_decide_eq_true_2 by apply lookup_delete_eq.
    eexists. split; [done|]. simpl. by rewrite lookup_insert_eq.
  - rewrite bool_decide_eq_true_2 by done.
    eexists. split; [done|]. simpl. by rewrite lookup_insert_eq.
Qed.


(** [install] terminates on every finite requirement graph whose ranges
    are not empty: when the names required by the manifest, by every
    document and archive the registry serves and by every descriptor on
    disk are among the names of [N], and none of their sanitized ranges is
    the empty string, the run returns (with success or with a thrown
    error) within [length N + 1] rounds of the [do ... while] loop. *)
Theorem installPackage_terminates `{S : SemverLib} (N : list string)
    (w : World) (manifest : Package) (prod : bool) (st : State) (fuel : nat) :
  world_ok N w ->
  disk_ok N st ->
  deps_ok N (getPackageDependencies manifest prod) = true ->
  (length N < fuel)%nat ->
  exists outcome, run w fuel manifest prod st = Some outcome.
Proof.
  intros Hw Hd Hroot Hfuel. unfold run.
  destruct (constructor_npmClient w st) as (st0 & -> & Hcache & Hmods).
  assert (Hc0 : cache_ok N w st0).
  { intros c name doc. rewrite Hcache. intros [= <-]. by rewrite lookup_empty. }
  pose proof (disk_ok_eq N st st0 Hmods Hd) as Hd0.
  unfold installPackage.
  destruct (installDependencies w [] _ st0) as [[e|[P1 next1]] st1] eqn:Hrun;
    [by eexists|].
  destruct (installDependencies_ok N w _ [] P1 next1 st0 st1 Hw Hroot Hc0 Hd0
              Hrun) as (Hc1 & Hd1 & Hn1 & _ & _).
  apply (doWhile_terminates N w Hw); try done.
  pose proof (pending_bound N P1). lia.
Qed.

Lemma serve_ok (N : list string) (table : Js.Obj Response) :
  forallb (fun e => response_ok N (snd e)) table = true ->
  world_ok N (Scenario.serve table).
Proof.
  rewrite forallb_forall. intros Hall url r Hr. simpl in Hr.
  apply get_In in Hr. by apply Hall in Hr.
Qed.

(** The cycle between [a] and [b] with the range [*]. *)
Lemma installPackage_terminates_witness :
  exists outcome,
    run (H := SemverFragment.lib) Scenario.star_world 3 Scenario.star_manifest
      false Scenario.empty_disk = Some outcome.
Proof.
  apply (installPackage_terminates (S := SemverFragment.lib) ["a"; "b"]).
  - apply serve_ok. vm_compute. reflexivity.
  - intros key d. simpl. by rewrite lookup_empty.
  - vm_compute. reflexivity.
  - simpl. lia.
Defined.

(** ** The ledger *)

Lemma installDependency_ledger `{S : SemverLib} (w : World) (L : KeyValueType)
    (key : string) (P next P' next' : KeyValueType) (st st' : State) :
  installDependency w L key (P, next) st = (inr (P', next'), st') ->
  P' = if Js.truthy (Js.get P key) then P
       else Js.set key (extractVersionFromVersion (default "" (Js.get L key))) P.
Proof.
  unfold installDependency.
  destruct (Js.truthy (Js.get P key)).
  { unfold ret. by intros [= <- _ _]. }
  intros Hrun.
  apply bind_inr_inv in Hrun as (doc & st1 & _ & Hrun).
  apply bind_inr_inv in Hrun as (installed & st2 & _ & Hrun).
  apply bind_inr_inv in Hrun as (merged & st3 & _ & Hrun).
  unfold ret in Hrun. by injection Hrun as <- _ _.
Qed.

Lemma forKeys_skip `{S : SemverLib} (w : World) (L : KeyValueType)
    (keys : list string) (P next : KeyValueType) (st : State) :
  (forall k, k ∈ keys -> Js.truthy (Js.get P k) = true) ->
  forKeys w L keys (P, next) st = (inr (P, next), st).
Proof.
  induction keys as [|key keys IH]; intros Hdone; [done|].
  cbn [forKeys]. unfold bind at 1. unfold installDependency.
  rewrite (Hdone key) by apply list_elem_of_here. unfold ret at 1.
  apply IH. intros k Hk. by apply Hdone, list_elem_of_further.
Qed.

Lemma forKeys_ledger `{S : SemverLib} (w : World) (L : KeyValueType)
    (keys : list string) :
  forall (P next P' next' : KeyValueType) (st st' : State),
    forKeys w L keys (P, next) st = (inr (P', next'), st') ->
    (forall k, Js.truthy (Js.get P k) = true -> Js.get P' k = Js.get P k)
    /\ (forall k, k ∈ keys -> Js.truthy (Js.get P k) = false ->
                  Js.get P' k
                  = Some (extractVersionFromVersion
                            (default "" (Js.get L k))))
    /\ (forall k, k ∉ keys -> Js.get P' k = Js.get P k).
Proof.
  induction keys as [|key keys IH]; intros P next P' next' st st'.
  - simpl. unfold ret. intros [= <- _ _]. repeat split; try done.
    intros k Hk. by apply elem_of_nil in Hk.
  - cbn [forKeys]. intros Hrun.
    apply bind_inr_inv in Hrun as ([P1 next1] & st1 & Hone & Hrest).
    apply installDependency_ledger in Hone.
    destruct (IH _ _ _ _ _ _ Hrest) as (Hkeep & Hnew & Hother).
    set (range := fun k =>
           extractVersionFromVersion (default "" (Js.get L k))) in *.
    assert (Hstep : forall k,
              Js.get P1 k
              = if Js.truthy (Js.get P key) then Js.get P k
                else if String.eqb key k then Some (range key)
                     else Js.get P k).
    { intros k. subst P1. destruct (Js.truthy (Js.get P key)); [done|].
      apply get_set. }
    split; [|split].
    + intros k Hk. rewrite Hkeep; rewrite Hstep.
      * destruct (Js.truthy (Js.get P key)) eqn:Hkey; [done|].
        destruct (String.eqb key k) eqn:E; [|done].
        apply String.eqb_eq in E as ->. congruence.
      * destruct (Js.truthy (Js.get P key)) eqn:Hkey; [done|].
        destruct (String.eqb key k) eqn:E; [|done].
        apply String.eqb_eq in E as ->. congruence.
    + intros k Hk Hfalsy.
      destruct (decide (key = k)) as [->|Hne].
      * specialize (Hstep k). rewrite Hfalsy, String.eqb_refl in Hstep.
        destruct (Js.truthy (Js.get P1 k)) eqn:Ht.
        -- by rewrite Hkeep.
        -- destruct (decide (k ∈ keys)) as [Hin|Hout].
           ++ by apply Hnew.
           ++ by rewrite Hother.
      * apply elem_of_cons in Hk as [->|Hk]; [done|].
        apply Hnew; [done|]. rewrite Hstep.
        destruct (Js.truthy (Js.get P key)); [done|].
        apply String.eqb_neq in Hne. by rewrite Hne.
    + intros k [Hne Hk]%not_elem_of_cons. rewrite Hother, Hstep by done.
      destruct (Js.truthy (Js.get P key)); [done|].
      assert (key <> k) as Hne'%String.eqb_neq by done. by rewrite Hne'.
Qed.

(** The ledger across one level whose names are neither property names of
    [Object.prototype] nor made of decimal digits only.  A level whose names are all recorded (with a
    non-empty range) does nothing but ensure [node_modules], and returns
    an empty next level, which ends the loop.  After any level that
    succeeds, a name that was recorded keeps its entry (the first
    requirement wins), a name of the level that was not recorded holds the
    sanitized range the level gives it, and no other entry changes. *)
Theorem installDependencies_ledger `{S : SemverLib} (w : World)
    (P L : KeyValueType) (st : State) :
  (forall k, k ∈ Js.keys L -> plain_key k = true) ->
  ((forall k, k ∈ Js.keys L -> Js.truthy (Js.get P k) = true) ->
   installDependencies w P L st
   = (inr (P, []),
      {| caches := caches st; nm_exists := true; mods := mods st;
         bin := bin st; log := log st |}))
  /\ (forall P' next' st',
        installDependencies w P L st = (inr (P', next'), st') ->
        forall k,
          Js.get P' k
          = if Js.truthy (Js.get P k) then Js.get P k
            else if bool_decide (k ∈ Js.keys L)
                 then Some (extractVersionFromVersion
                              (default "" (Js.get L k)))
                 else Js.get P k).
Proof.
  intros _. unfold installDependencies.
  unfold bind at 1 2, ensure_node_modules at 1 2, modify at 1 2. split.
  - intros Hdone. by apply forKeys_skip.
  - intros P' next' st' Hrun k.
    destruct (forKeys_ledger w L (Js.keys L) _ _ _ _ _ _ Hrun)
      as (Hkeep & Hnew & Hother).
    destruct (Js.truthy (Js.get P k)) eqn:Ht; [by apply Hkeep|].
    case_bool_decide; [by apply Hnew|by apply Hother].
Qed.

(** The third level of the cycle with [*]: both names are recorded. *)
Lemma installDependencies_ledger_witness :
  installDependencies (H := SemverFragment.lib) Scenario.star_world
    [("a", "*"); ("b", "*")] [("a", "*")] Scenario.empty_disk
  = (inr ([("a", "*"); ("b", "*")], []),
     {| caches := ∅; nm_exists := true; mods := ∅; bin := None; log := [] |}).
Proof.
  refine (proj1 (installDependencies_ledger (S := SemverFragment.lib)
                  Scenario.star_world [("a", "*"); ("b", "*")] [("a", "*")]
                  Scenario.empty_disk _) _).
  - intros k Hk. apply list_elem_of_singleton in Hk as ->. reflexivity.
  - intros k Hk. apply list_elem_of_singleton in Hk as ->. reflexivity.
Defined.

(** ** A settled tree is left alone *)

Lemma forallb_set {V} (f : string * V -> bool) (o : Js.Obj V) (k : string)
    (v : V) :
  f (k, v) = true -> forallb f o = true -> forallb f (Js.set k v o) = true.
Proof.
  intros Hkv. induction o as [|[k' v'] o IH]; simpl.
  - by rewrite Hkv.
  - intros [Hk' Ho]%andb_true_iff.
    destruct (String.eqb k' k); simpl.
    + by rewrite Hkv, Ho.
    + by rewrite Hk', IH.
Qed.

Lemma forallb_spread {V} (f : string * V -> bool) (a b : Js.Obj V) :
  forallb f a = true -> forallb f b = true ->
  forallb f (Js.spread a b) = true.
Proof.
  unfold Js.spread. revert a.
  induction b as [|[k v] b IH]; intros a Ha Hb; simpl; [done|].
  simpl in Hb. apply andb_true_iff in Hb as [Hkv Hb].
  apply IH; [|done]. by apply forallb_set.
Qed.

Lemma forallb_spread_opt {V} (f : string * V -> bool) (a : Js.Obj V)
    (b : option (Js.Obj V)) :
  forallb f a = true -> forallb f (default [] b) = true ->
  forallb f (Js.spread_opt a b) = true.
Proof. destruct b; simpl; [apply forallb_spread|done]. Qed.

Lemma getPackage_served (w : World) (name : string) (doc : PackageResponse)
    (st : State) :
  cache_from w st -> served w name = Some doc ->
  exists st1 names,
    getPackage w (npmClient w) name st = (inr doc, st1)
    /\ mods st1 = mods st /\ bin st1 = bin st /\ cache_from w st1
    /\ log st1 = (log st ++ map lookup_of names)%list.
Proof.
  intros Hc Hs. unfold served in Hs.
  destruct (fetch w _) as [r|] eqn:Hf; [|done].
  destruct (ok r) eqn:Hok; [|done].
  unfold getPackage, readPackageInfoCache, writePackageInfoCache,
    downloadPackageInfo, do_fetch, when, set_caches, emit, modify, bind,
    gets, ret, throw; simpl.
  destruct (caches st !! cwd w) as [c|] eqn:Hcache; simpl.
  - destruct (c !! name) as [cached|] eqn:Hcached; simpl.
    + exists st, []. rewrite app_nil_r.
      pose proof (Hc c name cached Hcache Hcached) as Hserved.
      unfold served in Hserved. rewrite Hf, Hok, Hs in Hserved.
      by injection Hserved as ->.
    + rewrite Hf. simpl. rewrite Hok, Hs. simpl.
      eexists _, [name]. split; [done|]. simpl. repeat split; try done.
      intros c' name' doc'. simpl. rewrite lookup_insert_eq.
      intros [= <-]. destruct (decide (name = name')) as [<-|Hne].
      * rewrite lookup_insert_eq. intros [= <-].
        unfold served. by rewrite Hf, Hok.
      * rewrite lookup_insert_ne, Hcache by done. simpl. by apply Hc.
  - rewrite Hf. simpl. rewrite Hok, Hs. simpl.
    eexists _, [name]. split; [done|]. simpl. repeat split; try done.
    intros c' name' doc'. simpl. rewrite lookup_insert_eq.
    intros [= <-]. destruct (decide (name = name')) as [<-|Hne].
    + rewrite lookup_insert_eq. intros [= <-].
      unfold served. by rewrite Hf, Hok.
    + rewrite lookup_insert_ne, Hcache by done. simpl. by rewrite lookup_empty.
Qed.

Lemma descriptor_of_Some (d : dirents) (pkg : Package) :
  descriptor_of d = Some pkg ->
  exists n, Js.get d PACKAGE_FILE_NAME = Some n /\ readJson n = inr pkg.
Proof.
  unfold descriptor_of.
  destruct (Js.get d PACKAGE_FILE_NAME) as [n|]; [|done].
  destruct (readJson n) as [e|pkg'] eqn:Hread; [done|].
  intros [= <-]. by exists n.
Qed.

Lemma settled_inv `{S : SemverLib} (w : World) (m : gmap string dirents)
    (key required : string) :
  settled w m (key, required) = true ->
  exists d doc pkg record census,
    Js.truthy (Some (extractVersionFromVersion required)) = true
    /\ m !! key = Some d
    /\ served w (packageName_of key required) = Some doc
    /\ descriptor_of d = Some pkg
    /\ satisfies (pkg_version pkg) (extractVersionFromVersion required) = true
    /\ Js.get (versions doc) (pkg_version pkg) = Some record
    /\ getFolderStat d = Some census
    /\ strict_eq (fileCount census) (dist_fileCount (dist record)) = true
    /\ strict_eq (totalSize census) (dist_unpackedSize (dist record)) = true
    /\ bin_truthy (vr_bin record) = false.
Proof.
  unfold settled. cbn [fst snd].
  intros [Hrange Hrest]%andb_true_iff.
  destruct (m !! key) as [d|] eqn:Hd; [|done].
  destruct (served w _) as [doc|] eqn:Hdoc; [|done].
  destruct (descriptor_of d) as [pkg|] eqn:Hpkg; [|done].
  apply andb_true_iff in Hrest as [Hsat Hrest].
  destruct (Js.get (versions doc) _) as [record|] eqn:Hrec; [|done].
  destruct (getFolderStat d) as [census|] eqn:Hcensus; [|done].
  apply andb_true_iff in Hrest as [Hrest Hbin].
  apply andb_true_iff in Hrest as [Hcount Hsize].
  apply negb_true_iff in Hbin.
  exists d, doc, pkg, record, census. repeat split; done.
Qed.

Lemma forallb_get {V} (f : string * V -> bool) (o : Js.Obj V) (k : string)
    (v : V) :
  forallb f o = true -> Js.get o k = Some v -> f (k, v) = true.
Proof.
  rewrite forallb_forall. intros Hall Hg. by apply Hall, get_In.
Qed.

(** One iteration on a settled requirement: nothing but the metadata
    lookup happens. *)
Lemma installDependency_settled `{S : SemverLib} (w : World)
    (L : KeyValueType) (key : string) (P R : KeyValueType) (st : State) :
  cache_from w st -> closed w (mods st) ->
  forallb (settled w (mods st)) L = true -> key ∈ Js.keys L ->
  forallb (settled w (mods st)) R = true ->
  exists P' R' st' names,
    installDependency w L key (P, R) st = (inr (P', R'), st')
    /\ mods st' = mods st /\ bin st' = bin st /\ cache_from w st'
    /\ log st' = (log st ++ map lookup_of names)%list
    /\ forallb (settled w (mods st)) R' = true
    /\ Js.truthy (Js.get P' key) = true
    /\ (forall k, Js.truthy (Js.get P k) = true ->
                  Js.truthy (Js.get P' k) = true)
    /\ (Js.truthy (Js.get P key) = true -> R' = R)
    /\ is_Some (mods st !! key).
Proof.
  intros Hc Hclosed HL Hkey HR.
  apply keys_get in Hkey as [r Hr].
  pose proof (forallb_get _ _ _ _ HL Hr) as Hset.
  apply settled_inv in Hset
    as (d & doc & pkg & record & census & Hrange & Hd & Hdoc & Hpkg & Hsat
        & Hrec & Hcensus & Hcount & Hsize & Hbin).
  unfold installDependency.
  destruct (Js.truthy (Js.get P key)) eqn:Hledger.
  { exists P, R, st, []. rewrite app_nil_r. unfold ret.
    repeat split; try done; by eexists. }
  rewrite Hr. simpl default.
  change (if isVersionContainPackageName r
          then extractPackageNameFromVersion r else key)
    with (packageName_of key r).
  destruct (getPackage_served w _ doc st Hc Hdoc)
    as (st1 & names & Hget & Hm1 & Hb1 & Hc1 & Hl1).
  rewrite (bind_inr _ _ _ _ _ Hget).
  apply descriptor_of_Some in Hpkg as Hn. destruct Hn as (n & Hn & Hread).
  rewrite <- Hm1 in Hd.
  destruct (installed_descriptor key st1 d n pkg Hd Hn Hread) as [Hex Hrd].
  rewrite (bind_inr _ _ _ _ _ Hex).
  assert (Hbody :
    bind (readPackageJson key)
      (fun modulePackageJsonObject : Package =>
         let moduleCurrentVersion :=
           Js.get (versions doc) (pkg_version modulePackageJsonObject) in
         (if satisfies (pkg_version modulePackageJsonObject)
                       (extractVersionFromVersion r)
          then
            bind (isModuleValid moduleCurrentVersion key)
              (fun valid : bool =>
                 bind (when (negb valid)
                         (redownloadModule w moduleCurrentVersion key))
                   (fun _ => symlinkBinFiles moduleCurrentVersion key))
          else
            let moduleNewVersion :=
              maxSatisfying (Js.keys (versions doc))
                            (extractVersionFromVersion r) in
            let newVersion :=
              Js.get_nullable (versions doc) moduleNewVersion in
            bind (redownloadModule w newVersion key)
              (fun _ => symlinkBinFiles newVersion key)) ;;
         ret (Js.spread_opt R (pkg_dependencies modulePackageJsonObject)))
      st1
    = (inr (Js.spread_opt R (pkg_dependencies pkg)), st1)).
  { rewrite (bind_inr _ _ _ _ _ Hrd). cbv zeta. rewrite Hsat, Hrec.
    unfold isModuleValid, get_dir, symlinkBinFiles, when, bind, gets, ret.
    rewrite Hd, Hcensus, Hcount, Hsize, Hbin. done. }
  rewrite (bind_inr _ _ _ _ _ Hbody). unfold ret.
  exists (Js.set key (extractVersionFromVersion r) P),
    (Js.spread_opt R (pkg_dependencies pkg)), st1, names.
  split; [done|]. split; [done|]. split; [done|]. split; [done|].
  split; [done|]. split.
  { apply forallb_spread_opt; [done|].
    rewrite <- Hm1. rewrite <- Hm1 in Hclosed. by eapply Hclosed. }
  split; [by rewrite get_set_eq|]. split.
  { intros k Hk. rewrite get_set. by destruct (String.eqb key k). }
  split; [done|]. rewrite <- Hm1. by eexists.
Qed.

Lemma forKeys_settled `{S : SemverLib} (w : World) (L : KeyValueType)
    (m : gmap string dirents) (keys : list string) :
  closed w m -> forallb (settled w m) L = true ->
  (forall k, k ∈ keys -> k ∈ Js.keys L) ->
  forall (P R : KeyValueType) (st : State),
    mods st = m -> cache_from w st -> forallb (settled w m) R = true ->
    exists P' R' st' names,
      forKeys w L keys (P, R) st = (inr (P', R'), st')
      /\ mods st' = m /\ bin st' = bin st /\ cache_from w st'
      /\ log st' = (log st ++ map lookup_of names)%list
      /\ forallb (settled w m) R' = true
      /\ (forall k, k ∈ keys -> Js.truthy (Js.get P' k) = true)
      /\ (forall k, Js.truthy (Js.get P k) = true ->
                    Js.truthy (Js.get P' k) = true)
      /\ ((forall k, k ∈ keys -> Js.truthy (Js.get P k) = true) -> R' = R)
      /\ (forall k, k ∈ keys -> is_Some (m !! k)).
Proof.
  intros Hclosed HL. induction keys as [|key keys IH];
    intros Hkeys P R st Hm Hc HR; simpl.
  - exists P, R, st, []. rewrite app_nil_r. unfold ret.
    repeat split; try done; intros k Hk; by apply elem_of_nil in Hk.
  - subst m.
    destruct (installDependency_settled w L key P R st Hc Hclosed HL
                (Hkeys key (list_elem_of_here _ _)) HR)
      as (P1 & R1 & st1 & names1 & Hone & Hm1 & Hb1 & Hc1 & Hl1 & HR1
          & Hkey1 & Hmono1 & Hskip1 & Hin1).
    rewrite (bind_inr _ _ _ _ _ Hone).
    destruct (IH (fun k Hk => Hkeys k (list_elem_of_further _ _ _ Hk))
                P1 R1 st1 Hm1 Hc1 HR1)
      as (P' & R' & st' & names & Hrest & Hm' & Hb' & Hc' & Hl' & HR'
          & Hall & Hmono & Hskip & Hin).
    exists P', R', st', (names1 ++ names)%list.
    split; [done|]. split; [done|]. split; [congruence|]. split; [done|].
    split; [by rewrite Hl', Hl1, map_app, app_assoc|]. split; [done|].
    split; [|split; [|split]].
    + intros k [->|Hk]%elem_of_cons; [by apply Hmono|by apply Hall].
    + intros k Hk. by apply Hmono, Hmono1.
    + intros Hdone.
      rewrite <- (Hskip1 (Hdone key (list_elem_of_here _ _))).
      apply Hskip. intros k Hk. apply Hmono1, Hdone.
      by apply list_elem_of_further.
    + intros k [->|Hk]%elem_of_cons; [done|by apply Hin].
Qed.

Lemma installDependencies_settled `{S : SemverLib} (w : World)
    (L P : KeyValueType) (st : State) :
  closed w (mods st) -> forallb (settled w (mods st)) L = true ->
  cache_from w st ->
  exists P' R' st' names,
    installDependencies w P L st = (inr (P', R'), st')
    /\ mods st' = mods st /\ bin st' = bin st /\ cache_from w st'
    /\ log st' = (log st ++ map lookup_of names)%list
    /\ forallb (settled w (mods st)) R' = true
    /\ (forall k, Js.truthy (Js.get P k) = true ->
                  Js.truthy (Js.get P' k) = true)
    /\ (R' <> [] ->
        exists k, is_Some (mods st !! k) /\ Js.truthy (Js.get P k) = false
                  /\ Js.truthy (Js.get P' k) = true).
Proof.
  intros Hclosed HL Hc. unfold installDependencies.
  unfold bind at 1, ensure_node_modules at 1, modify at 1.
  set (st0 := {| caches := caches st; nm_exists := true; mods := mods st;
                 bin := bin st; log := log st |}).
  destruct (forKeys_settled w L (mods st) (Js.keys L) Hclosed HL
              (fun k Hk => Hk) P [] st0 eq_refl Hc eq_refl)
    as (P' & R' & st' & names & Hrun & Hm' & Hb' & Hc' & Hl' & HR' & Hall
        & Hmono & Hskip & Hin).
  exists P', R', st', names.
  split; [done|]. split; [done|]. split; [done|]. split; [done|].
  split; [done|]. split; [done|]. split; [done|].
  intros Hne.
  destruct (forallb (fun k => Js.truthy (Js.get P k)) (Js.keys L)) eqn:Hdone.
  - rewrite forallb_forall in Hdone. destruct Hne. apply Hskip.
    intros k Hk. by apply Hdone, list_elem_of_In.
  - apply forallb_false_witness in Hdone as (k & Hk & HP).
    exists k. split; [by apply Hin|]. split; [done|by apply Hall].
Qed.

Lemma installed_names_elem (m : gmap string dirents) (k : string) :
  is_Some (m !! k) -> k ∈ installed_names m.
Proof.
  intros [d Hd]. unfold installed_names.
  apply list_elem_of_fmap. exists (k, d). split; [done|].
  by apply elem_of_map_to_list.
Qed.

Lemma doWhile_settled `{S : SemverLib} (w : World)
    (m : gmap string dirents) :
  closed w m ->
  forall (fuel : nat) (P L : KeyValueType) (st : State),
    mods st = m -> cache_from w st -> forallb (settled w m) L = true ->
    (pending (installed_names m) P < fuel)%nat ->
    exists st' names,
      doWhile w fuel P L st = Some (inr tt, st')
      /\ mods st' = m /\ bin st' = bin st
      /\ log st' = (log st ++ map lookup_of names)%list.
Proof.
  intros Hclosed. induction fuel as [|fuel IH]; intros P L st Hm Hc HL Hfuel;
    [lia|].
  rewrite doWhile_unfold. subst m.
  destruct (installDependencies_settled w L P st Hclosed HL Hc)
    as (P' & R' & st1 & names1 & -> & Hm1 & Hb1 & Hc1 & Hl1 & HR1 & Hmono
        & Hprogress).
  destruct (0 <? length (Js.keys R'))%nat eqn:Hmore.
  - destruct Hprogress as (k & Hk & HP & HP').
    { intros ->. done. }
    pose proof (pending_lt (installed_names (mods st)) P P' k Hmono
                  (installed_names_elem _ _ Hk) HP HP') as Hlt.
    destruct (IH P' R' st1 Hm1 Hc1 HR1 ltac:(lia))
      as (st' & names & Hrun & Hm' & Hb' & Hl').
    exists st', (names1 ++ names)%list.
    split; [done|]. split; [done|]. split; [congruence|].
    by rewrite Hl', Hl1, map_app, app_assoc.
  - by exists st1, names1.
Qed.

Lemma constructor_npmClient_frame (w : World) (st : State) :
  exists st0,
    constructor w (npmClient w) st = (inr tt, st0)
    /\ caches st0 !! cwd w = Some ∅ /\ mods st0 = mods st
    /\ bin st0 = bin st /\ log st0 = log st.
Proof.
  unfold constructor, when, set_caches, modify, bind, gets, ret. simpl.
  destruct (caches st !! cwd w) as [dir|] eqn:Hdir; simpl.
  - rewrite bool_decide_eq_true_2 by apply lookup_delete_eq.
    eexists. split; [done|]. simpl. by rewrite lookup_insert_eq.
  - rewrite bool_decide_eq_true_2 by done.
    eexists. split; [done|]. simpl. by rewrite lookup_insert_eq.
Qed.


(** Idempotence where it holds.  When every requirement of the manifest
    and of every descriptor on disk is settled (the module is installed at
    a version satisfying the non-empty range, the registry serves the
    record of that version, the census of the directory equals the
    numbers of the record, and the record names no executable), a run
    with more rounds than there are installed modules returns normally,
    leaves the modules and the links as they were, and fetches nothing
    but metadata documents: no archive is downloaded, even when the
    requirements form a cycle. *)
Theorem run_leaves_settled_tree `{S : SemverLib} (w : World)
    (manifest : Package) (prod : bool) (st : State) (fuel : nat) :
  closed w (mods st) ->
  forallb (settled w (mods st)) (getPackageDependencies manifest prod) = true ->
  (length (installed_names (mods st)) < fuel)%nat ->
  exists st' names,
    run w fuel manifest prod st = Some (inr tt, st')
    /\ mods st' = mods st /\ bin st' = bin st
    /\ log st' = (log st ++ map lookup_of names)%list.
Proof.
  intros Hclosed Hroot Hfuel. unfold run.
  destruct (constructor_npmClient_frame w st)
    as (st0 & -> & Hcache & Hm0 & Hb0 & Hl0).
  assert (Hc0 : cache_from w st0).
  { intros c name doc. rewrite Hcache. intros [= <-]. by rewrite lookup_empty. }
  unfold installPackage. rewrite <- Hm0 in Hclosed, Hroot.
  destruct (installDependencies_settled w _ [] st0 Hclosed Hroot Hc0)
    as (P1 & R1 & st1 & names1 & -> & Hm1 & Hb1 & Hc1 & Hl1 & HR1 & _ & _).
  destruct (doWhile_settled w (mods st0) Hclosed fuel P1 R1 st1 Hm1 Hc1 HR1)
    as (st' & names & Hrun & Hm' & Hb' & Hl').
  { pose proof (pending_bound (installed_names (mods st0)) P1) as Hle.
    rewrite <- Hm0 in Hfuel. lia. }
  exists st', (names1 ++ names)%list.
  split; [done|]. split; [congruence|]. split; [congruence|].
  by rewrite Hl', Hl1, Hl0, map_app, app_assoc.
Qed.

Lemma closed_by_list `{S : SemverLib} (w : World) (m : gmap string dirents) :
  forallb (fun kd : string * dirents =>
             match descriptor_of (snd kd) with
             | Some pkg =>
                 forallb (settled w m) (default [] (pkg_dependencies pkg))
             | None => true
             end) (map_to_list m) = true ->
  closed w m.
Proof.
  rewrite forallb_forall. intros Hall key d pkg Hd Hpkg.
  apply elem_of_map_to_list, list_elem_of_In, Hall in Hd.
  cbn [snd] in Hd. by rewrite Hpkg in Hd.
Qed.

(** The cycle between [a] and [b], both installed. *)
Lemma run_leaves_settled_tree_witness :
  exists st' names,
    run (H := SemverFragment.lib) Scenario.star_world 3 Scenario.star_manifest
      false star_disk = Some (inr tt, st')
    /\ mods st' = mods star_disk /\ bin st' = bin star_disk
    /\ log st' = (log star_disk ++ map lookup_of names)%list.
Proof.
  apply (run_leaves_settled_tree (S := SemverFragment.lib)).
  - apply closed_by_list. vm_compute. reflexivity.
  - vm_compute. reflexivity.
  - vm_compute. lia.
Defined.

(** ** What a run from an empty [node_modules] installs *)

























(** ** The second run after a fresh install *)








(** ** The verdict of [isModuleValid] *)

(** [isModuleValid] on an installed module: it throws when a dangling
    link is reachable in the directory; otherwise it compares the two
    numbers of the record with the number and the total size of the
    regular files reached through directories and links, and leaves the
    state alone.  A record that lacks one of the two numbers is never
    found valid. *)
Theorem isModuleValid_verdict (record : VersionResponse) (key : string)
    (st : State) (d : dirents) :
  mods st !! key = Some d ->
  isModuleValid (Some record) key st
  = (if any_entry dangling d then inl (SystemError "ENOENT")
     else inr (strict_eq (sum_entries followed_count d)
                         (dist_fileCount (dist record))
               && strict_eq (sum_entries followed_size d)
                            (dist_unpackedSize (dist record))), st)
  /\ (dist_fileCount (dist record) = None
      \/ dist_unpackedSize (dist record) = None ->
      fst (isModuleValid (Some record) key st) <> inr true).
Proof.
  intros Hd.
  assert (Heq : isModuleValid (Some record) key st
                = (if any_entry dangling d then inl (SystemError "ENOENT")
                   else inr (strict_eq (sum_entries followed_count d)
                                       (dist_fileCount (dist record))
                             && strict_eq (sum_entries followed_size d)
                                  (dist_unpackedSize (dist record))), st)).
  { unfold isModuleValid, get_dir, bind, gets, ret, throw.
    rewrite Hd, getFolderStat_sum. by destruct (any_entry dangling d). }
  split; [done|]. rewrite Heq. cbn [fst].
  destruct (any_entry dangling d); [done|].
  unfold strict_eq. intros Hnone [= Hv].
  apply andb_true_iff in Hv as [Hcount Hsize].
  apply bool_decide_eq_true in Hcount, Hsize.
  destruct Hnone as [Hnone|Hnone]; congruence.
Qed.

Lemma isModuleValid_verdict_witness :
  isModuleValid (Some (Scenario.record "a" "1.0.0" [("b", "*")])) "a" star_disk
  = (inr true, star_disk).
Proof.
  destruct (isModuleValid_verdict (Scenario.record "a" "1.0.0" [("b", "*")])
              "a" star_disk (Scenario.payload "a" "1.0.0" [("b", "*")])
              ltac:(vm_compute; reflexivity)) as [Heq _].
  rewrite Heq. vm_compute. reflexivity.
Defined.

(** ** Errors abort the run *)

Lemma forKeys_app `{S : SemverLib} (w : World) (L : KeyValueType)
    (before after : list string) (acc : KeyValueType * KeyValueType)
    (st : State) :
  forKeys w L (before ++ after) acc st
  = bind (forKeys w L before acc) (forKeys w L after) st.
Proof.
  revert acc st. induction before as [|k before IH]; intros acc st; simpl.
  - done.
  - unfold bind in *.
    destruct (installDependency w L k acc st) as [[e|acc1] st1]; [done|].
    apply IH.
Qed.

(** The first error of the first level ends the run.  For a manifest
    whose names are neither property names of [Object.prototype] nor made
    of decimal digits only (so that they are visited, in the order of
    the manifest): when the names before [key] are handled without error
    and the iteration for [key] throws, the run returns that error with
    the state in which it was thrown, for any number of rounds allowed;
    nothing is rolled back and no later name is visited. *)
Theorem run_stops_at_first_error `{S : SemverLib} (w : World)
    (manifest : Package) (prod : bool) (st st1 st' : State)
    (before after : list string) (key : string)
    (acc1 : KeyValueType * KeyValueType) (e : error) (fuel : nat) :
  let root := getPackageDependencies manifest prod in
  let st0 := snd (ensure_node_modules (snd (constructor w (npmClient w) st))) in
  forallb plain_key (Js.keys root) = true ->
  Js.keys root = (before ++ key :: after)%list ->
  forKeys w root before ([], []) st0 = (inr acc1, st1) ->
  installDependency w root key acc1 st1 = (inl e, st') ->
  run w fuel manifest prod st = Some (inl e, st').
Proof.
  intros root st0 _ Hkeys Hbefore Hkey. unfold run.
  destruct (constructor_npmClient w st) as (stc & Hc & _).
  subst st0. rewrite Hc in *. cbn [snd] in Hbefore.
  unfold installPackage. fold root.
  assert (Hlevel : installDependencies w [] root stc = (inl e, st')).
  { unfold installDependencies. rewrite Hkeys.
    unfold bind at 1. unfold ensure_node_modules at 1, modify at 1.
    unfold ensure_node_modules, modify in Hbefore. cbn [snd] in Hbefore.
    rewrite forKeys_app. rewrite (bind_inr _ _ _ _ _ Hbefore).
    cbn [forKeys]. by rewrite (bind_inl _ _ _ _ _ Hkey). }
  by rewrite Hlevel.
Qed.

(** [b] is installed, the registry does not know [ghost], and [c] is
    never asked for. *)
Lemma run_stops_at_first_error_witness :
  exists e st',
    run (H := SemverFragment.lib) Scenario.upgrade_world 0
      (Scenario.manifest [("b", "^1.0.0"); ("ghost", "^1.0.0");
                          ("c", "^1.0.0")])
      false Scenario.empty_disk = Some (inl e, st')
    /\ is_Some (mods st' !! "b") /\ mods st' !! "c" = None.
Proof.
  pose (w := Scenario.upgrade_world).
  pose (manifest := Scenario.manifest [("b", "^1.0.0"); ("ghost", "^1.0.0");
                                       ("c", "^1.0.0")]).
  pose (st0 := snd (ensure_node_modules
                      (snd (constructor w (npmClient w) Scenario.empty_disk)))).
  destruct (forKeys (H := SemverFragment.lib) w
              (getPackageDependencies manifest false) ["b"] ([], []) st0)
    as [[e1|acc1] st1] eqn:Hbefore; [by vm_compute in Hbefore|].
  destruct (installDependency (H := SemverFragment.lib) w
              (getPackageDependencies manifest false) "ghost" acc1 st1)
    as [[e|acc2] st'] eqn:Hkey; cycle 1.
  { vm_compute in Hbefore. injection Hbefore as <- <-.
    by vm_compute in Hkey. }
  exists e, st'. split.
  - by apply (run_stops_at_first_error (S := SemverFragment.lib) w manifest
                false Scenario.empty_disk st1 st' ["b"] ["c"] "ghost" acc1 e 0
                eq_refl).
  - vm_compute in Hbefore. injection Hbefore as <- <-.
    vm_compute in Hkey. injection Hkey as <- <-.
    split; [by eexists|done].
Defined.

(** ** An installed module that is out of range *)



(** ** The links [symlinkBinFiles] creates *)

Lemma symlinkAll_creates (key : string) (m : KeyValueType) :
  forall st,
    NoDup (Js.keys m) ->
    (forall name, name ∈ Js.keys m -> default ∅ (bin st) !! name = None) ->
    exists st',
      symlinkAll key m st = (inr tt, st')
      /\ (forall name p, In (name, p) m ->
                         default ∅ (bin st') !! name = Some (key, p))
      /\ (forall name, name ∉ Js.keys m ->
                       default ∅ (bin st') !! name = default ∅ (bin st) !! name)
      /\ mods st' = mods st /\ caches st' = caches st /\ log st' = log st.
Proof.
  induction m as [|[binFile p] m IH]; intros st Hnodup Hfree.
  - exists st. simpl. unfold ret. repeat split; done.
  - simpl in Hnodup. apply NoDup_cons in Hnodup as [Hfirst Hnodup].
    cbn [symlinkAll]. unfold bind at 1. rewrite symlinkSync_result.
    rewrite (Hfree binFile) by (simpl; apply list_elem_of_here).
    set (st2 := {| caches := caches st; nm_exists := true; mods := mods st;
                   bin := Some (<[binFile := (key, p)]> (default ∅ (bin st)));
                   log := log st |}).
    destruct (IH st2 Hnodup) as (st' & Hrun & Hnew & Hold & Hm & Hc & Hl).
    { intros name Hname. simpl. rewrite lookup_insert_ne.
      - apply Hfree. simpl. by apply list_elem_of_further.
      - intros <-. done. }
    exists st'. split; [done|]. split; [|split; [|done]].
    + intros name p' [[= <- <-]|Hin].
      * rewrite (Hold binFile Hfirst). simpl. by rewrite lookup_insert_eq.
      * by apply Hnew.
    + intros name Hname. simpl in Hname.
      apply not_elem_of_cons in Hname as [Hne Hname].
      rewrite (Hold name Hname). simpl. by rewrite lookup_insert_ne.
Qed.

(** [symlinkBinFiles] creates the declared links: when the version
    declares executables, the names of its links are distinct path
    segments and none of them is taken in [node_modules/.bin] (a name with
    a separator would need a directory that nothing creates), the call
    returns normally, every
    declared name is linked to its file in the module [key], every other
    link is as before, and the modules are untouched.  A [bin] given as
    one string is linked under the name of the package ([version.name]),
    whatever [key] the module is installed under. *)
Theorem symlinkBinFiles_creates_links (version : VersionResponse)
    (key : string) (st : State) :
  bin_truthy (vr_bin version) = true ->
  NoDup (Js.keys (declared_links version)) ->
  forallb segment (Js.keys (declared_links version)) = true ->
  (forall name, name ∈ Js.keys (declared_links version) ->
                default ∅ (bin st) !! name = None) ->
  exists st',
    symlinkBinFiles (Some version) key st = (inr tt, st')
    /\ (forall name p, In (name, p) (declared_links version) ->
                       default ∅ (bin st') !! name = Some (key, p))
    /\ (forall name, name ∉ Js.keys (declared_links version) ->
                     default ∅ (bin st') !! name = default ∅ (bin st) !! name)
    /\ mods st' = mods st.
Proof.
  intros Htruthy Hnodup _ Hfree. rewrite symlinkBinFiles_truthy by done.
  set (st0 := match bin st with
              | Some _ => st
              | None => {| caches := caches st; nm_exists := true;
                           mods := mods st; bin := Some ∅; log := log st |}
              end).
  assert (Hbin : default ∅ (bin st0) = default ∅ (bin st)).
  { unfold st0. by destruct (bin st) eqn:Hb; [rewrite Hb|]. }
  assert (Hmods : mods st0 = mods st) by (unfold st0; by destruct (bin st)).
  destruct (symlinkAll_creates key (declared_links version) st0 Hnodup)
    as (st' & Hrun & Hnew & Hold & Hm & _).
  { intros name Hname. rewrite Hbin. by apply Hfree. }
  exists st'. split.
  - unfold declared_links in Hrun. destruct (vr_bin version) as [|p|m];
      [done| |done].
    cbn [symlinkAll] in Hrun. unfold bind in Hrun.
    destruct (symlinkSync (key, p) (vr_name version) st0) as [[e|[]] st1];
      [done|]. by injection Hrun as ->.
  - split; [done|]. split; [|congruence].
    intros name Hname. rewrite <- Hbin. by apply Hold.
Qed.

Lemma symlinkBinFiles_creates_links_witness :
  exists st',
    symlinkBinFiles
      (Some {| vr_name := "tool"; vr_version := "1.0.0";
               vr_dependencies := None;
               dist := dist (Scenario.record "tool" "1.0.0" []);
               vr_bin := BinPath "cli.js" |})
      "alias" Scenario.empty_disk = (inr tt, st')
    /\ default ∅ (bin st') !! "tool" = Some ("alias", "cli.js").
Proof.
  destruct (symlinkBinFiles_creates_links
              {| vr_name := "tool"; vr_version := "1.0.0";
                 vr_dependencies := None;
                 dist := dist (Scenario.record "tool" "1.0.0" []);
                 vr_bin := BinPath "cli.js" |}
              "alias" Scenario.empty_disk eq_refl)
    as (st' & Hrun & Hnew & _).
  - apply (bool_decide_unpack _). vm_compute. exact I.
  - reflexivity.
  - intros name Hname. simpl. apply lookup_empty.
  - exists st'. split; [done|]. apply Hnew. by left.
Defined.

(** ** [isVersionSatisfies] and the name prefix *)

Lemma includes_split (c sep : ascii) (s : string) :
  Ascii.eqb sep c = false ->
  Js.includes c s = existsb (Js.includes c) (Js.split sep s).
Proof.
  intros Hne. induction s as [|d s IH]; [done|].
  cbn [Js.split Js.includes].
  destruct (Ascii.eqb d sep) eqn:Hd.
  - apply Ascii.eqb_eq in Hd as ->. rewrite Hne. simpl. exact IH.
  - rewrite IH. destruct (Js.split sep s) as [|h t]; simpl;
      [by rewrite !orb_false_r|by rewrite orb_assoc].
Qed.

Lemma digits_value_no_at (s : string) :
  forall acc n,
    SemverFragment.digits_value s acc = Some n ->
    Js.includes at_sign s = false.
Proof.
  induction s as [|c s IH]; intros acc n; [done|].
  cbn [SemverFragment.digits_value Js.includes].
  destruct (SemverFragment.is_digit c) eqn:Hc; [|done].
  intros Hs. rewrite (IH _ _ Hs), orb_false_r.
  apply Ascii.eqb_neq. intros ->. by vm_compute in Hc.
Qed.

Lemma parse_num_no_at (s : string) (n : N) :
  SemverFragment.parse_num s = Some n -> Js.includes at_sign s = false.
Proof.
  unfold SemverFragment.parse_num. destruct s as [|c s]; [done|].
  destruct (_ && _); [done|]. apply digits_value_no_at.
Qed.

Lemma parse_version_no_at (s : string) (t : SemverFragment.triple) :
  SemverFragment.parse_version s = Some t -> Js.includes at_sign s = false.
Proof.
  unfold SemverFragment.parse_version.
  rewrite (includes_split at_sign "."%char s) by done.
  destruct (Js.split "." s) as [|a [|b [|c [|]]]]; try done.
  destruct (SemverFragment.parse_num a) eqn:Ha; [|done].
  destruct (SemverFragment.parse_num b) eqn:Hb; [|done].
  destruct (SemverFragment.parse_num c) eqn:Hc; [|done].
  intros _. simpl.
  by rewrite (parse_num_no_at _ _ Ha), (parse_num_no_at _ _ Hb),
    (parse_num_no_at _ _ Hc).
Qed.

Lemma fmap_parse_version_no_at (f : SemverFragment.triple ->
                                    SemverFragment.comparator)
    (s : string) (c : SemverFragment.comparator) :
  f <$> SemverFragment.parse_version s = Some c ->
  Js.includes at_sign s = false.
Proof.
  destruct (SemverFragment.parse_version s) as [t|] eqn:Ht; [|done].
  intros _. by eapply parse_version_no_at.
Qed.

Lemma parse_range_no_at (r : string) (c : SemverFragment.comparator) :
  SemverFragment.parse_range r = Some c -> Js.includes at_sign r = false.
Proof.
  unfold SemverFragment.parse_range. destruct r as [|x r]; [done|].
  destruct (String.eqb (String x r) "*") eqn:Hstar.
  { apply String.eqb_eq in Hstar. by rewrite Hstar. }
  cbn [Js.includes].
  destruct (Ascii.eqb x "^") eqn:H1.
  { apply Ascii.eqb_eq in H1 as ->. apply fmap_parse_version_no_at. }
  destruct (Ascii.eqb x "~") eqn:H2.
  { apply Ascii.eqb_eq in H2 as ->. apply fmap_parse_version_no_at. }
  destruct (Ascii.eqb x "=") eqn:H3.
  { apply Ascii.eqb_eq in H3 as ->. apply fmap_parse_version_no_at. }
  destruct (Ascii.eqb x ">") eqn:H4.
  { apply Ascii.eqb_eq in H4 as ->. destruct r as [|d r]; [done|].
    destruct (Ascii.eqb d "=") eqn:H5.
    - apply Ascii.eqb_eq in H5 as ->. apply fmap_parse_version_no_at.
    - apply fmap_parse_version_no_at. }
  destruct (Ascii.eqb x "<") eqn:H6.
  { apply Ascii.eqb_eq in H6 as ->. destruct r as [|d r]; [done|].
    destruct (Ascii.eqb d "=") eqn:H5.
    - apply Ascii.eqb_eq in H5 as ->. apply fmap_parse_version_no_at.
    - apply fmap_parse_version_no_at. }
  intros Hc. apply fmap_parse_version_no_at in Hc. exact Hc.
Qed.

Lemma fragment_rejects_at (v r : string) :
  Js.includes at_sign r = true ->
  satisfies (SemverLib := SemverFragment.lib) v r = false.
Proof.
  intros Hr. simpl. unfold SemverFragment.satisfies.
  destruct (SemverFragment.parse_version v); [|done].
  destruct (SemverFragment.parse_range r) as [c|] eqn:Hc; [|done].
  apply parse_range_no_at in Hc. congruence.
Qed.

(** [isVersionSatisfies] computes the sanitized range and then tests the
    requirement as it was given.  With a semver library that rejects a
    range containing [@] (it is not a range), no version satisfies a
    requirement written with a package-name prefix, whatever its range;
    on a requirement without [@] the result is that of the sanitized
    range. *)
Theorem isVersionSatisfies_rejects_prefixed `{S : SemverLib}
    (packageVersion name range : string) :
  (forall v r, Js.includes at_sign r = true -> satisfies v r = false) ->
  isVersionSatisfies packageVersion (name +:+ "@" +:+ range) = false
  /\ (Js.includes at_sign range = false ->
      isVersionSatisfies packageVersion range
      = satisfies packageVersion (getSanitizedVersion range)).
Proof.
  intros Hat. split.
  - unfold isVersionSatisfies. apply Hat.
    rewrite includes_append. apply orb_true_iff. right.
    change ("@" +:+ range) with (String at_sign range). done.
  - intros Hr. by rewrite sanitized_plain.
Qed.

(** 1.5.0 satisfies [^1.0.0], and is rejected for [example@^1.0.0]. *)
Lemma isVersionSatisfies_rejects_prefixed_witness :
  isVersionSatisfies (H := SemverFragment.lib) "1.5.0" "example@^1.0.0" = false
  /\ satisfies (SemverLib := SemverFragment.lib) "1.5.0"
       (getSanitizedVersion "example@^1.0.0") = true.
Proof.
  split; [|reflexivity].
  exact (proj1 (isVersionSatisfies_rejects_prefixed
                  (S := SemverFragment.lib) "1.5.0" "example" "^1.0.0"
                  fragment_rejects_at)).
Defined.
